(** * Notes client: the state held by [App] and its asynchronous operations

    A shallow embedding of [src/notes_frontend/src/App.js].  The React
    component [App] keeps six state cells ([notes], [loadingList],
    [loadingSave], [loadingDelete], [error], [selectedId]) and four
    asynchronous functions ([fetchNotes], [createNote], [saveNote],
    [deleteNote]) plus two inline edit handlers.

    Each asynchronous function runs synchronously up to its [await fetch(...)]
    and resumes when the reply arrives.  It is therefore embedded as two state
    transformers: [f_call] (the code before the [await]) and [f_settle] (the
    code after it, including [catch] and [finally]).  Values the function
    reads from its enclosing render ([selectedId], [notes]) are not the
    current cells but the ones captured when the function was created; they
    are passed explicitly as the closure [cl]. *)

From Stdlib Require Import ZArith NArith List String Bool Lia DecimalString.
Import ListNotations.

Local Open Scope string_scope.
Local Open Scope list_scope.
Local Open Scope Z_scope.

(** ** Data *)

(** A note as the backend serialises it. *)
Record Note : Type := mkNote {
  id : Z;
  title : string;
  content : string;
  created_at : string;
  updated_at : string
}.

(** The six [useState] cells of [App] (lines 84-89). *)
Record State : Type := mkState {
  notes : list Note;
  loadingList : bool;
  loadingSave : bool;
  loadingDelete : bool;
  error : option string;
  selectedId : option Z
}.

(** Initial values of the cells. *)
Definition initial : State :=
  {| notes := []; loadingList := false; loadingSave := false;
     loadingDelete := false; error := None; selectedId := None |}.

(** ** State setters

    [setNotes] and [setSelectedId] are used with updater functions in the
    source; a plain value [v] is the updater [fun _ => v]. *)

Definition setNotes (f : list Note -> list Note) (st : State) : State :=
  {| notes := f (notes st); loadingList := loadingList st;
     loadingSave := loadingSave st; loadingDelete := loadingDelete st;
     error := error st; selectedId := selectedId st |}.

Definition setLoadingList (b : bool) (st : State) : State :=
  {| notes := notes st; loadingList := b;
     loadingSave := loadingSave st; loadingDelete := loadingDelete st;
     error := error st; selectedId := selectedId st |}.

Definition setLoadingSave (b : bool) (st : State) : State :=
  {| notes := notes st; loadingList := loadingList st;
     loadingSave := b; loadingDelete := loadingDelete st;
     error := error st; selectedId := selectedId st |}.

Definition setLoadingDelete (b : bool) (st : State) : State :=
  {| notes := notes st; loadingList := loadingList st;
     loadingSave := loadingSave st; loadingDelete := b;
     error := error st; selectedId := selectedId st |}.

Definition setError (e : option string) (st : State) : State :=
  {| notes := notes st; loadingList := loadingList st;
     loadingSave := loadingSave st; loadingDelete := loadingDelete st;
     error := e; selectedId := selectedId st |}.

Definition setSelectedId (f : option Z -> option Z) (st : State) : State :=
  {| notes := notes st; loadingList := loadingList st;
     loadingSave := loadingSave st; loadingDelete := loadingDelete st;
     error := error st; selectedId := f (selectedId st) |}.

(** ** JavaScript values *)

(** Truthiness of a cell holding [null] or a number: [null] and [0] are
    falsy, every other number is truthy.  [!selectedId] is [negb (truthy _)]. *)
Definition truthy (v : option Z) : bool :=
  match v with
  | None => false
  | Some i => negb (i =? 0)
  end.

(** [selectedId === id] for a cell holding [null] or a number. *)
Definition strict_eq (v : option Z) (i : Z) : bool :=
  match v with
  | None => false
  | Some j => j =? i
  end.

(** [arr.length ? arr[0].id : null], and [arr[0].id] under a length guard. *)
Definition first_id (arr : list Note) : option Z :=
  if (0 <? List.length arr)%nat then option_map id (nth_error arr 0) else None.

(** The ids of a collection, in order. *)
Definition ids (l : list Note) : list Z := map id l.

(** [{ ...n, title: v }] and [{ ...n, content: v }]. *)
Definition with_title (v : string) (n : Note) : Note :=
  {| id := id n; title := v; content := content n;
     created_at := created_at n; updated_at := updated_at n |}.

Definition with_content (v : string) (n : Note) : Note :=
  {| id := id n; title := title n; content := v;
     created_at := created_at n; updated_at := updated_at n |}.

(** ** The remote collaborator

    What an [await fetch(...)] followed by [res.json()] can produce: a
    promise rejects with an [Error] carrying [message] (no response, or a
    body that does not decode), or a response arrives with a numeric
    [status] and the body [json].  The body is consulted only when the
    status is in the 2xx range, and never by [deleteNote]. *)
Inductive Response (A : Type) : Type :=
| Rejected (message : string)
| Replied (status : N) (json : A).

Arguments Rejected {A} message.
Arguments Replied {A} status json.

(** [res.ok]: the status is in the range 200-299. *)
Definition ok (status : N) : bool := ((200 <=? status) && (status <=? 299))%N.

(** The template literal [`${what} (${res.status})`]. *)
Definition status_message (what : string) (status : N) : string :=
  (what ++ " (" ++ NilZero.string_of_uint (N.to_uint status) ++ ")")%string.

(** The common prefix of every [try] block:
    [const res = await fetch(..); if (!res.ok) throw new Error(..); await res.json()].
    [inl message] is the exception reaching [catch (e)], with [e.message]. *)
Definition await {A : Type} (what : string) (res : Response A) : string + A :=
  match res with
  | Rejected message => inl message
  | Replied status json =>
      if ok status then inr json else inl (status_message what status)
  end.

(** ** fetchNotes (lines 93-109) *)

Definition fetchNotes_call (st : State) : State :=
  setLoadingList true st.

Definition fetchNotes_settle (cl : State) (res : Response (list Note))
    (st : State) : State :=
  let st :=
    match await "Failed to load notes" res with
    | inr data =>
        let st := setNotes (fun _ => data) st in
        let st :=
          if (0 <? List.length data)%nat && negb (truthy (selectedId cl))
          then setSelectedId (fun _ => option_map id (nth_error data 0)) st
          else st in
        setError None st
    | inl message => setError (Some message) st
    end in
  setLoadingList false st.

(** ** createNote (lines 115-143)

    [rnd] is the value of [Math.floor(Math.random() * 1e9)], [t1] and [t2]
    the two [new Date().toISOString()] readings. *)

Definition tempId_of (rnd : N) : Z := Z.of_N rnd * -1.

Definition optimistic_note (rnd : N) (t1 t2 : string) : Note :=
  {| id := tempId_of rnd; title := "Untitled"; content := "";
     created_at := t1; updated_at := t2 |}.

Definition createNote_call (rnd : N) (t1 t2 : string) (st : State) : State :=
  let st := setLoadingSave true st in
  let tempId := tempId_of rnd in
  let optimistic := optimistic_note rnd t1 t2 in
  let st := setNotes (fun prev => optimistic :: prev) st in
  setSelectedId (fun _ => Some tempId) st.

(** On failure the [catch] block calls [fetchNotes()] without awaiting it:
    the code of [fetchNotes] up to its own [await] runs inside the [catch],
    and its reply is handled later by [fetchNotes_settle] under the closure
    of the render that created this [createNote]. *)
Definition createNote_settle (tempId : Z) (res : Response Note)
    (st : State) : State :=
  let st :=
    match await "Failed to create note" res with
    | inr created =>
        let st :=
          setNotes
            (fun prev => created :: filter (fun n => negb (id n =? tempId)) prev)
            st in
        let st := setSelectedId (fun _ => Some (id created)) st in
        setError None st
    | inl message =>
        let st := setError (Some message) st in
        fetchNotes_call st
    end in
  setLoadingSave false st.

(** ** saveNote (lines 145-162)

    The argument [updated] only shapes the request; what comes back is the
    reply [res]. *)

Definition saveNote_call (st : State) : State :=
  setLoadingSave true st.

Definition saveNote_settle (res : Response Note) (st : State) : State :=
  let st :=
    match await "Failed to save note" res with
    | inr saved =>
        let st :=
          setNotes
            (fun prev => map (fun n => if id n =? id saved then saved else n) prev)
            st in
        setError None st
    | inl message => setError (Some message) st
    end in
  setLoadingSave false st.

(** ** deleteNote (lines 164-182)

    The body of a successful reply is never read.  Both [selectedId] and
    [notes] in the re-selection are the closure's. *)

Definition deleteNote_call (st : State) : State :=
  setLoadingDelete true st.

Definition deleteNote_settle (cl : State) (i : Z) (res : Response unit)
    (st : State) : State :=
  let st :=
    match await "Failed to delete note" res with
    | inr _ =>
        let st := setNotes (fun prev => filter (fun n => negb (id n =? i)) prev) st in
        let st :=
          if strict_eq (selectedId cl) i
          then
            setSelectedId
              (fun _ =>
                 let remaining := filter (fun n => negb (id n =? i)) (notes cl) in
                 first_id remaining)
              st
          else st in
        setError None st
    | inl message => setError (Some message) st
    end in
  setLoadingDelete false st.

(** ** Edit handlers (lines 306-308 and 313-315)

    [sid] is [selectedNote.id] of the render showing the input. *)

Definition editTitle (sid : Z) (v : string) (st : State) : State :=
  setNotes (fun prev => map (fun n => if id n =? sid then with_title v n else n) prev) st.

Definition editContent (sid : Z) (v : string) (st : State) : State :=
  setNotes (fun prev => map (fun n => if id n =? sid then with_content v n else n) prev) st.

(** [selectedNote] (line 91): [notes.find((n) => n.id === selectedId) || null]. *)
Definition selectedNote (st : State) : option Note :=
  find (fun n => strict_eq (selectedId st) (id n)) (notes st).

(** ** One operation from call to completion

    The operation as a user sees it when nothing else completes while its
    request is in flight: the closure is the state at the call, and the
    reply is handled on the state the call left behind.  For [createNote]
    the second reply, [rollback], answers the refetch issued by the [catch]
    block and is consulted only when [res] is a failure. *)

Definition fetchNotes (res : Response (list Note)) (st : State) : State :=
  fetchNotes_settle st res (fetchNotes_call st).

(** [createNote] once its own reply has been handled; a refetch issued by
    the [catch] block is still in flight. *)
Definition createNote_settled (rnd : N) (t1 t2 : string) (res : Response Note)
    (st : State) : State :=
  createNote_settle (tempId_of rnd) res (createNote_call rnd t1 t2 st).

Definition createNote (rnd : N) (t1 t2 : string) (res : Response Note)
    (rollback : Response (list Note)) (st : State) : State :=
  let st' := createNote_settled rnd t1 t2 res st in
  match await "Failed to create note" res with
  | inr _ => st'
  | inl _ => fetchNotes_settle st rollback st'
  end.

Definition saveNote (res : Response Note) (st : State) : State :=
  saveNote_settle res (saveNote_call st).

Definition deleteNote (i : Z) (res : Response unit) (st : State) : State :=
  deleteNote_settle st i res (deleteNote_call st).

(** ** The component as an event-driven machine

    Requests in flight, each with what its continuation captured. *)
Inductive Pending : Type :=
| AwaitList (cl : State)
| AwaitCreate (cl : State) (tempId : Z)
| AwaitSave
| AwaitDelete (cl : State) (i : Z).

Record World : Type := mkWorld {
  cells : State;
  inflight : list Pending
}.

(** User gestures offered by the rendered tree (lines 252-333) and replies
    to the [k]-th request in flight. *)
Inductive Event : Type :=
| ClickRefresh
| ClickNew (rnd : N) (t1 t2 : string)
| ClickNote (i : Z)
| TypeTitle (v : string)
| TypeContent (v : string)
| ClickSave
| ClickDelete
| ListReply (k : nat) (res : Response (list Note))
| CreateReply (k : nat) (res : Response Note)
| SaveReply (k : nat) (res : Response Note)
| DeleteReply (k : nat) (res : Response unit).

Definition remove_nth {A : Type} (k : nat) (l : list A) : list A :=
  firstn k l ++ skipn (S k) l.

(** After the first render the mount effect (lines 111-113) has called
    [fetchNotes()]. *)
Definition mounted : World :=
  {| cells := fetchNotes_call initial; inflight := [AwaitList initial] |}.

(** One event.  [None]: the gesture is not offered (button disabled or not
    rendered) or no such request is in flight. *)
Definition step (w : World) (e : Event) : option World :=
  let st := cells w in
  let fl := inflight w in
  match e with
  | ClickRefresh =>
      Some (mkWorld (fetchNotes_call st) (fl ++ [AwaitList st]))
  | ClickNew rnd t1 t2 =>
      if loadingSave st then None
      else Some (mkWorld (createNote_call rnd t1 t2 st)
                         (fl ++ [AwaitCreate st (tempId_of rnd)]))
  | ClickNote i =>
      if loadingList st then None
      else if existsb (fun n => id n =? i) (notes st)
           then Some (mkWorld (setSelectedId (fun _ => Some i) st) fl)
           else None
  | TypeTitle v =>
      match selectedNote st with
      | Some n => Some (mkWorld (editTitle (id n) v st) fl)
      | None => None
      end
  | TypeContent v =>
      match selectedNote st with
      | Some n => Some (mkWorld (editContent (id n) v st) fl)
      | None => None
      end
  | ClickSave =>
      match selectedNote st with
      | Some _ =>
          if loadingSave st then None
          else Some (mkWorld (saveNote_call st) (fl ++ [AwaitSave]))
      | None => None
      end
  | ClickDelete =>
      match selectedNote st with
      | Some n =>
          if loadingDelete st then None
          else Some (mkWorld (deleteNote_call st) (fl ++ [AwaitDelete st (id n)]))
      | None => None
      end
  | ListReply k res =>
      match nth_error fl k with
      | Some (AwaitList cl) =>
          Some (mkWorld (fetchNotes_settle cl res st) (remove_nth k fl))
      | _ => None
      end
  | CreateReply k res =>
      match nth_error fl k with
      | Some (AwaitCreate cl tempId) =>
          let rest := remove_nth k fl in
          Some (mkWorld (createNote_settle tempId res st)
                        (match await "Failed to create note" res with
                         | inr _ => rest
                         | inl _ => rest ++ [AwaitList cl]
                         end))
      | _ => None
      end
  | SaveReply k res =>
      match nth_error fl k with
      | Some AwaitSave =>
          Some (mkWorld (saveNote_settle res st) (remove_nth k fl))
      | _ => None
      end
  | DeleteReply k res =>
      match nth_error fl k with
      | Some (AwaitDelete cl i) =>
          Some (mkWorld (deleteNote_settle cl i res st) (remove_nth k fl))
      | _ => None
      end
  end.

Fixpoint run (w : World) (es : list Event) : option World :=
  match es with
  | [] => Some w
  | e :: es' =>
      match step w e with
      | Some w' => run w' es'
      | None => None
      end
  end.

(** ** Properties of a state *)

(** The selection, when there is one, names a note of the collection. *)
Definition selection_valid (st : State) : Prop :=
  forall i, selectedId st = Some i -> In i (ids (notes st)).

Definition selection_validb (st : State) : bool :=
  match selectedId st with
  | None => true
  | Some i => existsb (fun n => id n =? i) (notes st)
  end.

(** The ids of the collection are pairwise distinct. *)
Definition ids_distinct (st : State) : Prop := NoDup (ids (notes st)).

(** How many notes of a collection carry the id [i]. *)
Definition count_id (i : Z) (l : list Note) : nat :=
  List.length (filter (fun n => id n =? i) l).

(** A reply that makes [await] throw. *)
Definition fails {A : Type} (what : string) (res : Response A) (message : string) : Prop :=
  await what res = inl message.

(** A reply that lets [await] return [body]. *)
Definition succeeds {A : Type} (what : string) (res : Response A) (body : A) : Prop :=
  await what res = inr body.

(** What an edit may change: nothing but the notes carrying [sid], which
    keep their place. *)
Definition untouched_outside (sid : Z) (st st' : State) : Prop :=
  List.length (notes st') = List.length (notes st) /\
  ids (notes st') = ids (notes st) /\
  (forall k n, nth_error (notes st) k = Some n -> id n <> sid ->
               nth_error (notes st') k = Some n) /\
  error st' = error st /\
  loadingList st' = loadingList st /\
  loadingSave st' = loadingSave st /\
  loadingDelete st' = loadingDelete st /\
  selectedId st' = selectedId st.

(** Selection continuity across the removal of the notes with id [i]:
    [st] is the state the removal applies to and [st'] the state after it. *)
Definition selection_continued (i : Z) (st st' : State) : Prop :=
  notes st' = filter (fun n => negb (id n =? i)) (notes st) /\
  (selectedId st = Some i ->
   selectedId st' = match notes st' with [] => None | n :: _ => Some (id n) end) /\
  (selectedId st = Some i ->
   forall only, notes st = [only] -> id only = i -> selectedId st' = None) /\
  (selectedId st <> Some i -> selectedId st' = selectedId st).

(** ** Side conditions on the events of a run *)

(** [P] holds of every event of the run [es] in the world it is applied to. *)
Fixpoint along (P : World -> Event -> Prop) (w : World) (es : list Event) : Prop :=
  match es with
  | [] => True
  | e :: es' =>
      P w e /\
      match step w e with
      | Some w' => along P w' es'
      | None => True
      end
  end.

(** No id enters the collection twice: a drawn pending id is not in the
    collection, a fetched list has distinct ids, and a created note's id is
    not carried by another note that stays. *)
Definition collision_free (w : World) (e : Event) : Prop :=
  match e with
  | ClickNew rnd _ _ => ~ In (tempId_of rnd) (ids (notes (cells w)))
  | ListReply _ res =>
      match await "Failed to load notes" res with
      | inr data => NoDup (ids data)
      | inl _ => True
      end
  | CreateReply k res =>
      match await "Failed to create note" res, nth_error (inflight w) k with
      | inr created, Some (AwaitCreate _ tempId) =>
          ~ In (id created)
               (ids (filter (fun n => negb (id n =? tempId)) (notes (cells w))))
      | _, _ => True
      end
  | _ => True
  end.

(** What a successful refresh needs for the selection to name a fetched
    note afterwards: it re-selects (the closure's selection is falsy and the
    list is not empty), or the current selection is none or is fetched. *)
Definition refresh_keeps_selection (cl : State) (data : list Note) (st : State) : Prop :=
  (data <> [] /\ truthy (selectedId cl) = false) \/
  (forall s, selectedId st = Some s -> In s (ids data)).

(** The completions that can leave the selection behind: a successful
    refresh, and a successful delete whose closure no longer describes the
    current ids and selection. *)
Definition selection_kept (w : World) (e : Event) : Prop :=
  match e with
  | ListReply k res =>
      match await "Failed to load notes" res, nth_error (inflight w) k with
      | inr data, Some (AwaitList cl) => refresh_keeps_selection cl data (cells w)
      | _, _ => True
      end
  | DeleteReply k res =>
      match await "Failed to delete note" res, nth_error (inflight w) k with
      | inr _, Some (AwaitDelete cl _) =>
          ids (notes cl) = ids (notes (cells w)) /\
          selectedId cl = selectedId (cells w)
      | _, _ => True
      end
  | _ => True
  end.

(** ** What the rendered tree shows

    The parts of the tree (lines 252-333) that depend on the state cells;
    styles and the date badge are left aside. *)

(** [{error && <div ...>{error}</div>}] (line 261): [null] and the empty
    string are falsy and render nothing. *)
Definition banner (st : State) : option string :=
  match error st with
  | None => None
  | Some message => if String.eqb message "" then None else Some message
  end.

(** [{n.title || "Untitled"}] (line 275). *)
Definition label (n : Note) : string :=
  if String.eqb (title n) "" then "Untitled" else title n.

(** One entry of the side list (lines 269-280): its [key], whether it is
    drawn as the active one ([n.id === selectedId]) and its text. *)
Record Item : Type := mkItem {
  key : Z;
  active : bool;
  text : string
}.

Definition listItem (st : State) (n : Note) : Item :=
  {| key := id n; active := strict_eq (selectedId st) (id n); text := label n |}.

(** The side list (lines 263-282). *)
Inductive ListPane : Type :=
| LoadingNotes
| NoNotesYet
| Listed (items : list Item).

Definition listPane (st : State) : ListPane :=
  if loadingList st then LoadingNotes
  else if (List.length (notes st) =? 0)%nat then NoNotesYet
       else Listed (map (listItem st) (notes st)).

(** ** Requests in flight, by the busy flag that guards them *)

Definition guarded_by_loadingSave (p : Pending) : bool :=
  match p with
  | AwaitCreate _ _ | AwaitSave => true
  | _ => false
  end.

Definition guarded_by_loadingDelete (p : Pending) : bool :=
  match p with
  | AwaitDelete _ _ => true
  | _ => false
  end.

Definition guarded_by_loadingList (p : Pending) : bool :=
  match p with
  | AwaitList _ => true
  | _ => false
  end.

Definition in_flight (kind : Pending -> bool) (w : World) : nat :=
  List.length (filter kind (inflight w)).

(** The busy flags tell what is in flight: [loadingSave] and
    [loadingDelete] are set exactly while one request of their kind is in
    flight, and [loadingList] is set only while some refetch is. *)
Definition flags_track_requests (w : World) : Prop :=
  in_flight guarded_by_loadingSave w = (if loadingSave (cells w) then 1 else 0)%nat /\
  in_flight guarded_by_loadingDelete w = (if loadingDelete (cells w) then 1 else 0)%nat /\
  (loadingList (cells w) = true -> (0 < in_flight guarded_by_loadingList w)%nat).

(** ** Sample values used in the examples *)

Definition note (i : Z) (t : string) : Note :=
  {| id := i; title := t; content := ""; created_at := "t0"; updated_at := "t0" |}.

Definition state_of (l : list Note) (sel : option Z) : State :=
  {| notes := l; loadingList := false; loadingSave := false;
     loadingDelete := false; error := None; selectedId := sel |}.

(** * Theorems *)

(** ** Replies *)

Lemma await_rejected {A : Type} (what message : string) :
  await what (@Rejected A message) = inl message.
Proof. reflexivity. Qed.

Lemma await_ok {A : Type} (what : string) (status : N) (body : A) :
  ok status = true -> await what (Replied status body) = inr body.
Proof. intros H; unfold await; now rewrite H. Qed.

Lemma await_not_ok {A : Type} (what : string) (status : N) (body : A) :
  ok status = false ->
  await what (Replied status body) = inl (status_message what status).
Proof. intros H; unfold await; now rewrite H. Qed.

(** Every reply either throws or returns a body. *)
Lemma await_total {A : Type} (what : string) (res : Response A) :
  (exists message, fails what res message) \/ (exists body, succeeds what res body).
Proof.
  unfold fails, succeeds.
  destruct (await what res) as [m | b]; [left | right]; eauto.
Qed.

(** ** Collections *)

Lemma first_id_head (l : list Note) :
  first_id l = match l with [] => None | n :: _ => Some (id n) end.
Proof. destruct l; reflexivity. Qed.

Lemma ids_replace (saved : Note) (l : list Note) :
  ids (map (fun n => if id n =? id saved then saved else n) l) = ids l.
Proof.
  unfold ids. induction l as [| n l IH]; simpl; [reflexivity |].
  rewrite IH. f_equal.
  destruct (Z.eqb_spec (id n) (id saved)) as [E | E]; congruence.
Qed.

Lemma ids_edit (sid : Z) (g : Note -> Note) (l : list Note) :
  (forall n, id (g n) = id n) ->
  ids (map (fun n => if id n =? sid then g n else n) l) = ids l.
Proof.
  intros Hg. unfold ids. induction l as [| n l IH]; simpl; [reflexivity |].
  rewrite IH. f_equal. destruct (id n =? sid); auto.
Qed.

Lemma ids_remove (i : Z) (l : list Note) :
  ids (filter (fun n => negb (id n =? i)) l)
  = filter (fun j => negb (j =? i)) (ids l).
Proof.
  unfold ids. induction l as [| n l IH]; simpl; [reflexivity |].
  destruct (id n =? i); simpl; now rewrite IH.
Qed.

Lemma remove_absent (i : Z) (l : list Note) :
  ~ In i (ids l) -> filter (fun n => negb (id n =? i)) l = l.
Proof.
  unfold ids. induction l as [| n l IH]; simpl; intros H; [reflexivity |].
  destruct (Z.eqb_spec (id n) i) as [E | E]; simpl.
  - exfalso; apply H; now left.
  - f_equal; apply IH; tauto.
Qed.

Lemma in_ids_remove (i j : Z) (l : list Note) :
  In j (ids (filter (fun n => negb (id n =? i)) l)) <-> In j (ids l) /\ j <> i.
Proof.
  rewrite ids_remove, filter_In.
  destruct (Z.eqb_spec j i); simpl; intuition congruence.
Qed.

Lemma existsb_ids (i : Z) (l : list Note) :
  existsb (fun n => id n =? i) l = true <-> In i (ids l).
Proof.
  unfold ids. rewrite existsb_exists, in_map_iff.
  split; intros [n [H1 H2]]; exists n.
  - apply Z.eqb_eq in H2; tauto.
  - split; [tauto | apply Z.eqb_eq; tauto].
Qed.

Lemma selection_validb_spec (st : State) :
  selection_validb st = true <-> selection_valid st.
Proof.
  unfold selection_validb, selection_valid.
  destruct (selectedId st) as [s |].
  - rewrite existsb_ids. split; [intros H i [= <-]; exact H | auto].
  - split; [discriminate | reflexivity].
Qed.

Lemma count_id_absent (i : Z) (l : list Note) :
  ~ In i (ids l) -> count_id i l = 0%nat.
Proof.
  unfold count_id, ids. induction l as [| n l IH]; simpl; intros H; [reflexivity |].
  destruct (Z.eqb_spec (id n) i) as [E | E]; [exfalso; apply H; now left |].
  apply IH; tauto.
Qed.

(** ** Editing *)

Lemma nth_error_edit (sid : Z) (g : Note -> Note) (l : list Note) (k : nat) (n : Note) :
  nth_error l k = Some n -> id n <> sid ->
  nth_error (map (fun x => if id x =? sid then g x else x) l) k = Some n.
Proof.
  intros Hk Hn. rewrite nth_error_map, Hk. simpl.
  destruct (Z.eqb_spec (id n) sid); congruence.
Qed.

Lemma editTitle_untouched (sid : Z) (v : string) (st : State) :
  untouched_outside sid st (editTitle sid v st).
Proof.
  unfold untouched_outside, editTitle; simpl.
  repeat split.
  - apply length_map.
  - now apply ids_edit.
  - intros k n; apply nth_error_edit.
Qed.

Lemma editContent_untouched (sid : Z) (v : string) (st : State) :
  untouched_outside sid st (editContent sid v st).
Proof.
  unfold untouched_outside, editContent; simpl.
  repeat split.
  - apply length_map.
  - now apply ids_edit.
  - intros k n; apply nth_error_edit.
Qed.

(** C9. Frame property of the edit handlers: typing into the title or the
    content of the note with id [sid] leaves every note with another id the
    same value at the same position, keeps the length and the order of the
    collection, and changes neither the error, nor a busy flag, nor the
    selection; as an event of the component it issues no request. *)
Theorem edit_frame (sid : Z) (v : string) (st : State) :
  untouched_outside sid st (editTitle sid v st) /\
  untouched_outside sid st (editContent sid v st) /\
  (forall w w',
      step w (TypeTitle v) = Some w' \/ step w (TypeContent v) = Some w' ->
      inflight w' = inflight w).
Proof.
  split; [apply editTitle_untouched |].
  split; [apply editContent_untouched |].
  intros w w' [H | H]; simpl in H;
    destruct (selectedNote (cells w)); inversion H; reflexivity.
Qed.

Lemma edit_frame_witness :
  nth_error (notes (editTitle 2 "bb" (state_of [note 1 "a"; note 2 "b"] (Some 2)))) 0
  = Some (note 1 "a").
Proof.
  destruct (edit_frame 2 "bb" (state_of [note 1 "a"; note 2 "b"] (Some 2)))
    as [(_ & _ & H & _) _].
  apply H; [reflexivity | simpl; lia].
Defined.

(** ** Failures of save and delete *)

(** C6. Atomicity on failure of [saveNote] and [deleteNote]: a failed reply
    leaves the collection (with whatever was typed into it) and the selection
    exactly as they were when the reply arrived, sets the error to the
    failure's message and releases the busy flag; started from a state whose
    busy flag was clear, the whole operation changes the error cell only. *)
Theorem save_delete_failure_atomic :
  (forall res message,
      fails "Failed to save note" res message ->
      (forall st, saveNote_settle res st
                  = setLoadingSave false (setError (Some message) st)) /\
      (forall st, notes (saveNote res st) = notes st /\
                  selectedId (saveNote res st) = selectedId st /\
                  error (saveNote res st) = Some message) /\
      (forall st sid v,
          notes (saveNote_settle res (editTitle sid v (saveNote_call st)))
          = notes (editTitle sid v st) /\
          notes (saveNote_settle res (editContent sid v (saveNote_call st)))
          = notes (editContent sid v st)) /\
      (forall st, loadingSave st = false ->
                  saveNote res st = setError (Some message) st)) /\
  (forall i res message,
      fails "Failed to delete note" res message ->
      (forall cl st, deleteNote_settle cl i res st
                     = setLoadingDelete false (setError (Some message) st)) /\
      (forall st, notes (deleteNote i res st) = notes st /\
                  selectedId (deleteNote i res st) = selectedId st /\
                  error (deleteNote i res st) = Some message) /\
      (forall st, loadingDelete st = false ->
                  deleteNote i res st = setError (Some message) st)).
Proof.
  split.
  - intros res message H.
    assert (S1 : forall st, saveNote_settle res st
                            = setLoadingSave false (setError (Some message) st))
      by (intros st; unfold fails in H; unfold saveNote_settle; now rewrite H).
    repeat apply conj.
    + exact S1.
    + intros st. unfold saveNote. rewrite S1. auto.
    + intros st sid v. now rewrite !S1.
    + intros st Hb. unfold saveNote. rewrite S1.
      destruct st; simpl in *; subst; reflexivity.
  - intros i res message H.
    assert (D1 : forall cl st, deleteNote_settle cl i res st
                               = setLoadingDelete false (setError (Some message) st))
      by (intros cl st; unfold fails in H; unfold deleteNote_settle; now rewrite H).
    repeat apply conj.
    + exact D1.
    + intros st. unfold deleteNote. rewrite D1. auto.
    + intros st Hb. unfold deleteNote. rewrite D1.
      destruct st; simpl in *; subst; reflexivity.
Qed.

Lemma save_delete_failure_atomic_witness :
  saveNote (Replied 500 (note 1 "a")) (state_of [note 1 "edited"] (Some 1))
  = setError (Some "Failed to save note (500)") (state_of [note 1 "edited"] (Some 1)) /\
  deleteNote 1 (Rejected "Failed to fetch") (state_of [note 1 "edited"] (Some 1))
  = setError (Some "Failed to fetch") (state_of [note 1 "edited"] (Some 1)).
Proof.
  destruct save_delete_failure_atomic as [Hsave Hdel].
  destruct (Hsave (Replied 500 (note 1 "a")) "Failed to save note (500)" eq_refl)
    as (_ & _ & _ & Hs).
  destruct (Hdel 1 (Rejected "Failed to fetch") "Failed to fetch" eq_refl)
    as (_ & _ & Hd).
  split; [apply Hs | apply Hd]; reflexivity.
Defined.

(** ** Deleting *)

(** A successful delete, whatever happened while it was in flight: the
    notes with id [i] leave the current collection; the selection moves only
    if the closure's selection was [i], and then to the first note the
    closure's collection has left. *)
Lemma deleteNote_settle_success (cl : State) (i : Z) (res : Response unit) (st : State) :
  succeeds "Failed to delete note" res tt ->
  let st' := deleteNote_settle cl i res st in
  notes st' = filter (fun n => negb (id n =? i)) (notes st) /\
  selectedId st' =
    (if strict_eq (selectedId cl) i
     then first_id (filter (fun n => negb (id n =? i)) (notes cl))
     else selectedId st) /\
  error st' = None /\ loadingDelete st' = false.
Proof.
  unfold succeeds; intros H. unfold deleteNote_settle. rewrite H.
  destruct (strict_eq (selectedId cl) i); simpl; auto.
Qed.

Lemma first_id_ids (l l' : list Note) :
  ids l = ids l' -> first_id l = first_id l'.
Proof.
  rewrite !first_id_head. destruct l, l'; simpl; intros E; congruence.
Qed.

(** Selection continuity when the closure of [deleteNote] is up to date:
    the notes with id [i] are removed; if [i] was selected the selection
    becomes the id of the first remaining note, or none when no note
    remains (in particular when the deleted note was the only one); if [i]
    was not selected the selection is unchanged.  This holds for the delete
    run from its call to its completion, and more generally whenever the
    reply is handled on a collection with the ids, and a selection, that the
    call captured (notes may have been edited or saved in between).  It
    does not hold when the collection changed while the delete was in
    flight, as the runs at the end of this section show. *)
Theorem deleteNote_selection_continuity (i : Z) (res : Response unit)
    (Hok : succeeds "Failed to delete note" res tt) :
  (forall st, selection_continued i st (deleteNote i res st)) /\
  (forall cl st,
      ids (notes st) = ids (notes cl) -> selectedId st = selectedId cl ->
      selection_continued i st (deleteNote_settle cl i res st)).
Proof.
  assert (G : forall cl st,
             ids (notes st) = ids (notes cl) -> selectedId st = selectedId cl ->
             selection_continued i st (deleteNote_settle cl i res st)).
  { intros cl st Hids Hsel.
    destruct (deleteNote_settle_success cl i res st Hok) as (Hn & Hs & _).
    rewrite <- Hsel in Hs.
    assert (Hf : first_id (filter (fun n => negb (id n =? i)) (notes cl))
                 = first_id (filter (fun n => negb (id n =? i)) (notes st)))
      by (apply first_id_ids; rewrite !ids_remove; now rewrite Hids).
    rewrite Hf in Hs.
    assert (Hfirst : selectedId st = Some i ->
                     selectedId (deleteNote_settle cl i res st)
                     = match notes (deleteNote_settle cl i res st) with
                       | [] => None
                       | n :: _ => Some (id n)
                       end).
    { intros Hi. rewrite Hs, Hn, Hi. simpl. rewrite Z.eqb_refl.
      apply first_id_head. }
    unfold selection_continued. split; [exact Hn |].
    split; [exact Hfirst |]. split.
    - intros Hi only Hone Hid. rewrite (Hfirst Hi), Hn, Hone. simpl.
      rewrite Hid, Z.eqb_refl. reflexivity.
    - intros Hi. rewrite Hs.
      destruct (selectedId st) as [s |]; simpl; [| reflexivity].
      destruct (Z.eqb_spec s i); [congruence | reflexivity]. }
  split; [| exact G].
  intros st. unfold deleteNote.
  destruct (G st (deleteNote_call st) eq_refl eq_refl) as (Hn & H1 & H2 & H3).
  unfold selection_continued. auto.
Qed.

Lemma deleteNote_selection_continuity_witness :
  notes (deleteNote 2 (Replied 204 tt) (state_of [note 1 "a"; note 2 "b"] (Some 2)))
  = [note 1 "a"] /\
  selectedId (deleteNote 2 (Replied 204 tt) (state_of [note 1 "a"; note 2 "b"] (Some 2)))
  = Some 1.
Proof.
  destruct (deleteNote_selection_continuity 2 (Replied 204 tt) eq_refl) as [H _].
  destruct (H (state_of [note 1 "a"; note 2 "b"] (Some 2))) as (Hn & Hs & _).
  split; [exact Hn | exact (Hs eq_refl)].
Defined.

(** C7. The code at two failing inputs.  The re-selection of a successful
    delete (lines 170-173) reads [selectedId] and [notes] of the render the
    delete was clicked in, not the current cells.  First run: notes 1 and 2
    are listed and 1 is selected; Delete is clicked; a refresh clicked
    meanwhile fetches notes 1 and 3 and leaves the selection on 1; when the
    delete's reply is handled, note 1 is still the selected one, note 3 is
    the only and first remaining note, and the selection becomes 2, the id
    of a note that is no longer there, so the detail pane closes.  Second
    run: with the same list, Delete is clicked, then New, and the create is
    confirmed as note 7 before the delete's reply; the collection ends as
    notes 7 and 2 and the selection becomes 2, not 7, the first remaining
    note. *)
Theorem deleteNote_reselects_from_stale_closure :
  (exists w0 w,
      run mounted
        [ListReply 0 (Replied 200 [note 1 "a"; note 2 "b"]);
         ClickDelete;
         ClickRefresh;
         ListReply 1 (Replied 200 [note 1 "a"; note 3 "c"])] = Some w0 /\
      inflight w0 = [AwaitDelete (state_of [note 1 "a"; note 2 "b"] (Some 1)) 1] /\
      selectedId (cells w0) = Some 1 /\
      ids (notes (cells w0)) = [1; 3] /\
      step w0 (DeleteReply 0 (Replied 204 tt)) = Some w /\
      ids (notes (cells w)) = [3] /\
      first_id (notes (cells w)) = Some 3 /\
      selectedId (cells w) = Some 2 /\
      selectedNote (cells w) = None) /\
  (exists w0 w,
      run mounted
        [ListReply 0 (Replied 200 [note 1 "a"; note 2 "b"]);
         ClickDelete;
         ClickNew 5 "t1" "t2";
         CreateReply 1 (Replied 201 (note 7 "Untitled"))] = Some w0 /\
      inflight w0 = [AwaitDelete (state_of [note 1 "a"; note 2 "b"] (Some 1)) 1] /\
      ids (notes (cells w0)) = [7; 1; 2] /\
      step w0 (DeleteReply 0 (Replied 204 tt)) = Some w /\
      ids (notes (cells w)) = [7; 2] /\
      first_id (notes (cells w)) = Some 7 /\
      selectedId (cells w) = Some 2).
Proof.
  split; do 2 eexists; repeat (split; [reflexivity |]); reflexivity.
Qed.

(** ** Refreshing *)

(** A successful refresh, whatever happened while it was in flight. *)
Lemma fetchNotes_settle_success (cl : State) (res : Response (list Note))
    (data : list Note) (st : State) :
  succeeds "Failed to load notes" res data ->
  let st' := fetchNotes_settle cl res st in
  notes st' = data /\
  selectedId st' =
    (if (0 <? List.length data)%nat && negb (truthy (selectedId cl))
     then first_id data else selectedId st) /\
  error st' = None /\ loadingList st' = false /\
  loadingSave st' = loadingSave st /\ loadingDelete st' = loadingDelete st.
Proof.
  unfold succeeds; intros H. unfold fetchNotes_settle. rewrite H.
  unfold first_id.
  destruct (0 <? List.length data)%nat, (truthy (selectedId cl)); simpl; auto 10.
Qed.

Lemma fetchNotes_settle_failure (cl : State) (res : Response (list Note))
    (message : string) (st : State) :
  fails "Failed to load notes" res message ->
  fetchNotes_settle cl res st = setLoadingList false (setError (Some message) st).
Proof.
  unfold fails; intros H. unfold fetchNotes_settle. now rewrite H.
Qed.

Lemma first_id_in (l : list Note) (s : Z) :
  first_id l = Some s -> In s (ids l).
Proof.
  rewrite first_id_head. destruct l as [| n l]; [discriminate |].
  intros [= <-]. now left.
Qed.

Lemma fetchNotes_settle_valid_iff (cl : State) (res : Response (list Note))
    (data : list Note) (st : State) :
  succeeds "Failed to load notes" res data ->
  selection_valid (fetchNotes_settle cl res st)
  <-> refresh_keeps_selection cl data st.
Proof.
  intros H.
  destruct (fetchNotes_settle_success cl res data st H) as (Hn & Hs & _).
  unfold selection_valid, refresh_keeps_selection.
  rewrite Hn, Hs.
  destruct data as [| d rest]; simpl.
  - split.
    + intros Hv; right; exact Hv.
    + intros [[Hne _] | Hv]; [congruence | exact Hv].
  - destruct (truthy (selectedId cl)); simpl.
    + split.
      * intros Hv; right; exact Hv.
      * intros [[_ Hf] | Hv]; [discriminate | exact Hv].
    + split.
      * intros _; left; split; [discriminate | reflexivity].
      * intros _ i Hi. apply (first_id_in (d :: rest)), Hi.
Qed.

(** ** Creating *)

(** The optimistic insertion. *)
Lemma createNote_call_spec (rnd : N) (t1 t2 : string) (st : State) :
  let st' := createNote_call rnd t1 t2 st in
  notes st' = optimistic_note rnd t1 t2 :: notes st /\
  selectedId st' = Some (tempId_of rnd) /\
  error st' = error st /\ loadingSave st' = true /\
  loadingList st' = loadingList st /\ loadingDelete st' = loadingDelete st.
Proof. cbv zeta; unfold createNote_call; simpl; auto 10. Qed.

(** A successful create, whatever happened while it was in flight. *)
Lemma createNote_settle_success (tempId : Z) (res : Response Note)
    (created : Note) (st : State) :
  succeeds "Failed to create note" res created ->
  let st' := createNote_settle tempId res st in
  notes st' = created :: filter (fun n => negb (id n =? tempId)) (notes st) /\
  selectedId st' = Some (id created) /\
  error st' = None /\ loadingSave st' = false /\
  loadingList st' = loadingList st /\ loadingDelete st' = loadingDelete st.
Proof.
  unfold succeeds; intros H. unfold createNote_settle. rewrite H.
  simpl; auto 10.
Qed.

(** A failed create: the error is set and the refetch is started; the
    collection and the selection are not touched. *)
Lemma createNote_settle_failure (tempId : Z) (res : Response Note)
    (message : string) (st : State) :
  fails "Failed to create note" res message ->
  createNote_settle tempId res st
  = setLoadingSave false (fetchNotes_call (setError (Some message) st)).
Proof.
  unfold fails; intros H. unfold createNote_settle. now rewrite H.
Qed.

Lemma tempId_of_range (rnd : N) :
  tempId_of rnd <= 0 /\ ((rnd < 1000000000)%N -> -1000000000 < tempId_of rnd).
Proof. unfold tempId_of; lia. Qed.

(** ** Saving *)

Lemma saveNote_settle_success (res : Response Note) (saved : Note) (st : State) :
  succeeds "Failed to save note" res saved ->
  let st' := saveNote_settle res st in
  notes st' = map (fun n => if id n =? id saved then saved else n) (notes st) /\
  ids (notes st') = ids (notes st) /\
  selectedId st' = selectedId st /\
  error st' = None /\ loadingSave st' = false.
Proof.
  unfold succeeds; intros H. unfold saveNote_settle. rewrite H. simpl.
  repeat split. apply ids_replace.
Qed.

Lemma saveNote_settle_failure (res : Response Note) (message : string) (st : State) :
  fails "Failed to save note" res message ->
  saveNote_settle res st = setLoadingSave false (setError (Some message) st).
Proof.
  unfold fails; intros H. unfold saveNote_settle. now rewrite H.
Qed.

Lemma deleteNote_settle_failure (cl : State) (i : Z) (res : Response unit)
    (message : string) (st : State) :
  fails "Failed to delete note" res message ->
  deleteNote_settle cl i res st = setLoadingDelete false (setError (Some message) st).
Proof.
  unfold fails; intros H. unfold deleteNote_settle. now rewrite H.
Qed.

(** ** A create that fails *)

Lemma createNote_failure_mid (rnd : N) (t1 t2 : string) (res : Response Note)
    (message : string) (st : State) :
  fails "Failed to create note" res message ->
  let mid := createNote_settled rnd t1 t2 res st in
  notes mid = optimistic_note rnd t1 t2 :: notes st /\
  selectedId mid = Some (tempId_of rnd) /\
  error mid = Some message /\
  loadingList mid = true /\ loadingSave mid = false.
Proof.
  intros H. cbv zeta. unfold createNote_settled.
  rewrite (createNote_settle_failure _ _ _ _ H). simpl. auto.
Qed.

Lemma createNote_unfold_failure (rnd : N) (t1 t2 : string) (res : Response Note)
    (rollback : Response (list Note)) (message : string) (st : State) :
  fails "Failed to create note" res message ->
  createNote rnd t1 t2 res rollback st
  = fetchNotes_settle st rollback (createNote_settled rnd t1 t2 res st).
Proof.
  intros H. unfold createNote. unfold fails in H. now rewrite H.
Qed.

Lemma createNote_unfold_success (rnd : N) (t1 t2 : string) (res : Response Note)
    (rollback : Response (list Note)) (created : Note) (st : State) :
  succeeds "Failed to create note" res created ->
  createNote rnd t1 t2 res rollback st = createNote_settled rnd t1 t2 res st.
Proof.
  intros H. unfold createNote. unfold succeeds in H. now rewrite H.
Qed.

(** C10. The failure path of [createNote] does not remove the pending note
    itself, it only starts a refetch: once the failure is handled the
    pending note is still at the head of the collection and the only request
    in flight is the refetch; if that refetch fails too, the pending note
    remains in the collection, still selected, and the error holds the
    refetch's message, not the create's. *)
Theorem createNote_failed_rollback_keeps_pending (rnd : N) (t1 t2 : string)
    (res : Response Note) (rollback : Response (list Note))
    (mc mr : string) (st : State)
    (Hc : fails "Failed to create note" res mc)
    (Hr : fails "Failed to load notes" rollback mr) :
  let pending := optimistic_note rnd t1 t2 in
  let mid := createNote_settled rnd t1 t2 res st in
  let fin := createNote rnd t1 t2 res rollback st in
  notes mid = pending :: notes st /\
  error mid = Some mc /\
  step (mkWorld (createNote_call rnd t1 t2 st) [AwaitCreate st (tempId_of rnd)])
       (CreateReply 0 res)
  = Some (mkWorld mid [AwaitList st]) /\
  notes fin = pending :: notes st /\
  selectedId fin = Some (id pending) /\
  selectedNote fin = Some pending /\
  error fin = Some mr.
Proof.
  cbv zeta.
  destruct (createNote_failure_mid rnd t1 t2 res mc st Hc) as (Hn & Hs & He & _).
  rewrite (createNote_unfold_failure _ _ _ _ rollback _ _ Hc).
  rewrite (fetchNotes_settle_failure _ _ _ _ Hr).
  split; [exact Hn |]. split; [exact He |]. split.
  - simpl. unfold fails in Hc. rewrite Hc. reflexivity.
  - unfold selectedNote.
    cbn [notes selectedId error setLoadingList setError].
    rewrite Hn, Hs. cbn [find strict_eq optimistic_note id].
    rewrite Z.eqb_refl. auto.
Qed.

Lemma createNote_failed_rollback_keeps_pending_witness :
  notes (createNote 5 "t1" "t2" (Replied 500 (note 0 "")) (Rejected "Failed to fetch")
           (state_of [note 1 "a"] (Some 1)))
  = [optimistic_note 5 "t1" "t2"; note 1 "a"] /\
  error (createNote 5 "t1" "t2" (Replied 500 (note 0 "")) (Rejected "Failed to fetch")
           (state_of [note 1 "a"] (Some 1)))
  = Some "Failed to fetch".
Proof.
  destruct (createNote_failed_rollback_keeps_pending 5 "t1" "t2"
              (Replied 500 (note 0 "")) (Rejected "Failed to fetch")
              "Failed to create note (500)" "Failed to fetch"
              (state_of [note 1 "a"] (Some 1)) eq_refl eq_refl)
    as (_ & _ & _ & Hn & _ & _ & He).
  split; [exact Hn | exact He].
Defined.

(** C4, as the code has it.  When the create request fails, the handler
    sets the error to the create failure's message and starts a full
    refetch; it does not remove the pending note, which stays at the head of
    the collection, selected, while the refetch is in flight.  When the
    refetch succeeds the collection is exactly the fetched list, so no note
    with the pending id remains unless the fetched list has one, and the
    error is cleared. *)
Theorem createNote_failure_refetches (rnd : N) (t1 t2 : string)
    (res : Response Note) (rollback : Response (list Note))
    (mc : string) (data : list Note) (st : State)
    (Hc : fails "Failed to create note" res mc)
    (Hr : succeeds "Failed to load notes" rollback data) :
  let pending := optimistic_note rnd t1 t2 in
  let mid := createNote_settled rnd t1 t2 res st in
  let fin := createNote rnd t1 t2 res rollback st in
  notes mid = pending :: notes st /\
  selectedId mid = Some (id pending) /\
  error mid = Some mc /\
  loadingList mid = true /\
  notes fin = data /\
  (~ In (id pending) (ids data) -> count_id (id pending) (notes fin) = 0%nat) /\
  error fin = None.
Proof.
  cbv zeta.
  destruct (createNote_failure_mid rnd t1 t2 res mc st Hc) as (Hn & Hs & He & Hl & _).
  rewrite (createNote_unfold_failure _ _ _ _ rollback _ _ Hc).
  destruct (fetchNotes_settle_success st rollback data
              (createNote_settled rnd t1 t2 res st) Hr) as (Fn & _ & Fe & _).
  repeat split; auto.
  intros Habs. rewrite Fn. now apply count_id_absent.
Qed.

Lemma createNote_failure_refetches_witness :
  notes (createNote 5 "t1" "t2" (Replied 500 (note 0 "")) (Replied 200 [note 1 "a"])
           (state_of [note 1 "a"] (Some 1)))
  = [note 1 "a"] /\
  error (createNote 5 "t1" "t2" (Replied 500 (note 0 "")) (Replied 200 [note 1 "a"])
           (state_of [note 1 "a"] (Some 1)))
  = None.
Proof.
  destruct (createNote_failure_refetches 5 "t1" "t2"
              (Replied 500 (note 0 "")) (Replied 200 [note 1 "a"])
              "Failed to create note (500)" [note 1 "a"]
              (state_of [note 1 "a"] (Some 1)) eq_refl eq_refl)
    as (_ & _ & _ & _ & Hn & _ & He).
  split; [exact Hn | exact He].
Defined.

(** C4 as stated fails: after a create answered with status 500 the pending
    note (id -5) has not been removed by the failure handler, and once the
    refetch has succeeded the error is no longer set. *)
Lemma createNote_failure_does_not_remove_pending :
  let st := state_of [note 1 "a"] (Some 1) in
  let res := Replied 500 (note 0 "") in
  let mid := createNote_settled 5 "t1" "t2" res st in
  let fin := createNote 5 "t1" "t2" res (Replied 200 [note 1 "a"]) st in
  fails "Failed to create note" res "Failed to create note (500)" /\
  notes mid = [optimistic_note 5 "t1" "t2"; note 1 "a"] /\
  count_id (-5) (notes mid) <> 0%nat /\
  error fin <> Some "Failed to create note (500)" /\
  error fin = None.
Proof.
  cbv zeta. repeat split; try reflexivity; vm_compute; discriminate.
Qed.

(** ** The error cell *)

(** C5, as the code has it.  Each completion of refresh, create, save or
    delete decides the error cell on its own: a success leaves it none and a
    failure leaves exactly that failure's message, whatever the cell held
    before.  After a failed create the cell holds the create failure's
    message only while the refetch started by the handler is in flight; the
    refetch's completion then follows the same rule, clearing the cell when
    it succeeds and replacing the message when it fails. *)
Theorem error_cell_latest_completion_wins :
  (forall cl res data st,
      succeeds "Failed to load notes" res data ->
      error (fetchNotes_settle cl res st) = None) /\
  (forall tempId res created st,
      succeeds "Failed to create note" res created ->
      error (createNote_settle tempId res st) = None) /\
  (forall res saved st,
      succeeds "Failed to save note" res saved ->
      error (saveNote_settle res st) = None) /\
  (forall cl i res st,
      succeeds "Failed to delete note" res tt ->
      error (deleteNote_settle cl i res st) = None) /\
  (forall cl res message st,
      fails "Failed to load notes" res message ->
      error (fetchNotes_settle cl res st) = Some message) /\
  (forall tempId res message st,
      fails "Failed to create note" res message ->
      error (createNote_settle tempId res st) = Some message) /\
  (forall res message st,
      fails "Failed to save note" res message ->
      error (saveNote_settle res st) = Some message) /\
  (forall cl i res message st,
      fails "Failed to delete note" res message ->
      error (deleteNote_settle cl i res st) = Some message) /\
  (forall rnd t1 t2 res rollback mc st,
      fails "Failed to create note" res mc ->
      error (createNote_settled rnd t1 t2 res st) = Some mc /\
      (forall data, succeeds "Failed to load notes" rollback data ->
                    error (createNote rnd t1 t2 res rollback st) = None) /\
      (forall mr, fails "Failed to load notes" rollback mr ->
                  error (createNote rnd t1 t2 res rollback st) = Some mr)).
Proof.
  repeat apply conj.
  - intros cl res data st H.
    now destruct (fetchNotes_settle_success cl res data st H) as (_ & _ & He & _).
  - intros tempId res created st H.
    now destruct (createNote_settle_success tempId res created st H) as (_ & _ & He & _).
  - intros res saved st H.
    now destruct (saveNote_settle_success res saved st H) as (_ & _ & _ & He & _).
  - intros cl i res st H.
    now destruct (deleteNote_settle_success cl i res st H) as (_ & _ & He & _).
  - intros cl res m st H. now rewrite (fetchNotes_settle_failure _ _ _ _ H).
  - intros tempId res m st H. now rewrite (createNote_settle_failure _ _ _ _ H).
  - intros res m st H. now rewrite (saveNote_settle_failure _ _ _ H).
  - intros cl i res m st H. now rewrite (deleteNote_settle_failure _ _ _ _ _ H).
  - intros rnd t1 t2 res rollback mc st H.
    rewrite (createNote_unfold_failure _ _ _ _ rollback _ _ H).
    repeat apply conj.
    + now destruct (createNote_failure_mid rnd t1 t2 res mc st H) as (_ & _ & He & _).
    + intros data Hr.
      now destruct (fetchNotes_settle_success st rollback data
                      (createNote_settled rnd t1 t2 res st) Hr) as (_ & _ & He & _).
    + intros mr Hr. now rewrite (fetchNotes_settle_failure _ _ _ _ Hr).
Qed.

Lemma error_cell_latest_completion_wins_witness :
  error (saveNote_settle (Replied 200 (note 1 "a"))
           (setError (Some "Failed to delete note (404)") (state_of [note 1 "a"] (Some 1))))
  = None /\
  error (deleteNote_settle (state_of [note 1 "a"] (Some 1)) 1 (Replied 404 tt)
           (setError (Some "Failed to save note (500)") (state_of [note 1 "a"] (Some 1))))
  = Some "Failed to delete note (404)".
Proof.
  destruct error_cell_latest_completion_wins
    as (_ & _ & Hsave & _ & _ & _ & _ & Hdel & _).
  split.
  - apply (Hsave _ (note 1 "a")). reflexivity.
  - apply Hdel. reflexivity.
Defined.

(** C5 as stated fails on its last clause: after a create answered with
    status 500 and the refetch it starts answered with the list, the error
    cell is none, not the create failure's message. *)
Lemma create_error_cleared_by_refetch :
  let st := state_of [note 1 "a"] (Some 1) in
  let res := Replied 500 (note 0 "") in
  let rollback := Replied 200 [note 1 "a"] in
  fails "Failed to create note" res "Failed to create note (500)" /\
  succeeds "Failed to load notes" rollback [note 1 "a"] /\
  error (createNote_settled 7 "t1" "t2" res st) = Some "Failed to create note (500)" /\
  error (createNote 7 "t1" "t2" res rollback st) = None /\
  error (createNote 7 "t1" "t2" res rollback st) <> Some "Failed to create note (500)".
Proof.
  cbv zeta. repeat split; try reflexivity. vm_compute; discriminate.
Qed.

(** ** A create that succeeds *)

Lemma count_id_head (i : Z) (n : Note) (l : list Note) :
  count_id i (n :: l) = (if id n =? i then S (count_id i l) else count_id i l).
Proof. unfold count_id; simpl. destruct (id n =? i); reflexivity. Qed.

Lemma createNote_settle_counts (tempId : Z) (res : Response Note)
    (created : Note) (st : State) :
  succeeds "Failed to create note" res created ->
  let st' := createNote_settle tempId res st in
  (~ In (id created) (ids (notes st)) -> count_id (id created) (notes st') = 1%nat) /\
  (id created <> tempId -> count_id tempId (notes st') = 0%nat).
Proof.
  intros H. cbv zeta.
  destruct (createNote_settle_success tempId res created st H) as (Hn & _).
  rewrite Hn, !count_id_head, Z.eqb_refl. split.
  - intros Habs. f_equal. apply count_id_absent.
    rewrite in_ids_remove. tauto.
  - intros Hne. destruct (Z.eqb_spec (id created) tempId); [contradiction |].
    apply count_id_absent. rewrite in_ids_remove. tauto.
Qed.

(** C3, as the code has it.  When the create request succeeds, the server
    note is put at the head of the collection, followed by the notes the
    collection holds when the reply arrives that do not carry the pending
    id, in order; the selection becomes the server id and the error is
    cleared.  Exactly one note carries the server id afterwards if none
    carried it when the reply arrived, and no note carries the pending id
    afterwards if the server id differs from it.  When nothing else
    completes between the call and the reply, the notes that follow the
    server note are those of the collection before the call that do not
    carry the pending id, which is the whole prior collection if the drawn
    pending id was not in it. *)
Theorem createNote_success (res : Response Note) (created : Note)
    (Hok : succeeds "Failed to create note" res created) :
  (forall tempId st,
      let st' := createNote_settle tempId res st in
      notes st' = created :: filter (fun n => negb (id n =? tempId)) (notes st) /\
      selectedId st' = Some (id created) /\
      error st' = None /\
      (~ In (id created) (ids (notes st)) ->
       count_id (id created) (notes st') = 1%nat) /\
      (id created <> tempId -> count_id tempId (notes st') = 0%nat)) /\
  (forall rnd t1 t2 rollback st,
      let tempId := tempId_of rnd in
      let st' := createNote rnd t1 t2 res rollback st in
      notes st' = created :: filter (fun n => negb (id n =? tempId)) (notes st) /\
      selectedId st' = Some (id created) /\
      error st' = None /\
      (~ In tempId (ids (notes st)) -> notes st' = created :: notes st) /\
      (~ In (id created) (ids (notes st)) ->
       count_id (id created) (notes st') = 1%nat) /\
      (id created <> tempId -> count_id tempId (notes st') = 0%nat)).
Proof.
  split.
  - intros tempId st. cbv zeta.
    destruct (createNote_settle_success tempId res created st Hok) as (Hn & Hs & He & _).
    destruct (createNote_settle_counts tempId res created st Hok) as (C1 & C2).
    auto 10.
  - intros rnd t1 t2 rollback st. cbv zeta.
    rewrite (createNote_unfold_success _ _ _ _ rollback _ _ Hok).
    unfold createNote_settled.
    destruct (createNote_settle_success (tempId_of rnd) res created
                (createNote_call rnd t1 t2 st) Hok) as (Hn & Hs & He & _).
    assert (Hn' : notes (createNote_settle (tempId_of rnd) res
                           (createNote_call rnd t1 t2 st))
                  = created :: filter (fun n => negb (id n =? tempId_of rnd)) (notes st)).
    { rewrite Hn. cbn [createNote_call notes setSelectedId setNotes setLoadingSave
                       filter optimistic_note id].
      now rewrite Z.eqb_refl. }
    repeat apply conj; auto.
    + intros Habs. rewrite Hn'. now rewrite remove_absent.
    + intros Habs. rewrite Hn', count_id_head, Z.eqb_refl.
      f_equal. apply count_id_absent. rewrite in_ids_remove. tauto.
    + intros Hne. rewrite Hn', count_id_head.
      destruct (Z.eqb_spec (id created) (tempId_of rnd)); [contradiction |].
      apply count_id_absent. rewrite in_ids_remove. tauto.
Qed.

Lemma createNote_success_witness :
  notes (createNote 3 "t1" "t2" (Replied 201 (note 7 "Untitled")) (Rejected "")
           (state_of [note 1 "a"] None))
  = [note 7 "Untitled"; note 1 "a"] /\
  selectedId (createNote 3 "t1" "t2" (Replied 201 (note 7 "Untitled")) (Rejected "")
                (state_of [note 1 "a"] None))
  = Some 7.
Proof.
  destruct (createNote_success (Replied 201 (note 7 "Untitled")) (note 7 "Untitled")
              eq_refl) as [_ H].
  destruct (H 3%N "t1" "t2" (Rejected "") (state_of [note 1 "a"] None))
    as (Hn & Hs & _).
  split; [exact Hn | exact Hs].
Defined.

(** C3 as stated fails.  First run: a refresh is clicked while the create
    is in flight and its reply, which already lists the new server note 7,
    arrives before the create's; when the create's reply is handled two
    notes carry the id 7.  Second case, nothing in between: the collection
    already holds a note 7 (a view gone stale) and the server answers with
    the id 7; again two notes carry it. *)
Lemma createNote_success_duplicates_server_note :
  (exists w,
      run mounted
        [ListReply 0 (Replied 200 [note 1 "a"]);
         ClickNew 5 "t1" "t2";
         ClickRefresh;
         ListReply 1 (Replied 200 [note 7 "Untitled"; note 1 "a"]);
         CreateReply 0 (Replied 201 (note 7 "Untitled"))] = Some w /\
      ids (notes (cells w)) = [7; 7; 1] /\
      count_id 7 (notes (cells w)) <> 1%nat) /\
  (let st := state_of [note 7 "old"] (Some 7) in
   let res := Replied 201 (note 7 "Untitled") in
   let st' := createNote 3 "t1" "t2" res (Rejected "") st in
   succeeds "Failed to create note" res (note 7 "Untitled") /\
   notes st' = [note 7 "Untitled"; note 7 "old"] /\
   count_id 7 (notes st') <> 1%nat).
Proof.
  split.
  - eexists. split; [reflexivity |]. split; [reflexivity |].
    vm_compute; discriminate.
  - cbv zeta. repeat split; try reflexivity. vm_compute; discriminate.
Qed.

(** ** Refresh and the selection [0] *)

(** What a successful refresh does to the selection when nothing else
    completes while it is in flight. *)
Lemma fetchNotes_success (res : Response (list Note)) (data : list Note) (st : State) :
  succeeds "Failed to load notes" res data ->
  let st' := fetchNotes res st in
  notes st' = data /\ error st' = None /\
  (truthy (selectedId st) = true -> selectedId st' = selectedId st) /\
  (selectedId st = None -> selectedId st' = first_id data) /\
  (selectedId st = Some 0 -> data <> [] -> selectedId st' = first_id data).
Proof.
  intros H. cbv zeta. unfold fetchNotes.
  destruct (fetchNotes_settle_success st res data (fetchNotes_call st) H)
    as (Hn & Hs & He & _).
  change (selectedId (fetchNotes_call st)) with (selectedId st) in Hs.
  repeat apply conj; auto.
  - intros Ht. rewrite Hs, Ht. now rewrite andb_false_r.
  - intros Hnone. rewrite Hs, Hnone. simpl. rewrite andb_true_r.
    unfold first_id. destruct (0 <? List.length data)%nat; reflexivity.
  - intros Hz Hne. rewrite Hs, Hz. simpl. rewrite andb_true_r.
    destruct data; [contradiction | reflexivity].
Qed.

(** C8. The code at the failing input: note 0 is selected and present,
    both before and after a successful refresh, yet the refresh moves the
    selection to the first fetched note, because [!selectedId] holds of [0]. *)
Theorem fetchNotes_reselects_over_id_zero :
  let st := state_of [note 0 "a"; note 5 "b"] (Some 0) in
  let res := Replied 200 [note 5 "b"; note 0 "a"] in
  selectedNote st = Some (note 0 "a") /\
  succeeds "Failed to load notes" res [note 5 "b"; note 0 "a"] /\
  notes (fetchNotes res st) = [note 5 "b"; note 0 "a"] /\
  selectedId (fetchNotes res st) = Some 5.
Proof. cbv zeta. repeat split; reflexivity. Qed.

(** ** The selection names a note of the collection *)

Lemma selection_valid_frame (st st' : State) :
  ids (notes st') = ids (notes st) -> selectedId st' = selectedId st ->
  selection_valid st -> selection_valid st'.
Proof.
  unfold selection_valid. intros Hi Hs Hv i. rewrite Hi, Hs. apply Hv.
Qed.

Lemma createNote_call_valid (rnd : N) (t1 t2 : string) (st : State) :
  selection_valid (createNote_call rnd t1 t2 st).
Proof.
  unfold selection_valid, createNote_call; simpl. intros i [= <-]. now left.
Qed.

Lemma createNote_settle_valid (tempId : Z) (res : Response Note) (st : State) :
  selection_valid st -> selection_valid (createNote_settle tempId res st).
Proof.
  intros Hv.
  destruct (await_total "Failed to create note" res) as [[m H] | [created H]].
  - rewrite (createNote_settle_failure _ _ _ _ H).
    now apply (selection_valid_frame st).
  - destruct (createNote_settle_success tempId res created st H) as (Hn & Hs & _).
    unfold selection_valid. rewrite Hn, Hs. intros i [= <-]. now left.
Qed.

Lemma saveNote_settle_valid (res : Response Note) (st : State) :
  selection_valid st -> selection_valid (saveNote_settle res st).
Proof.
  intros Hv.
  destruct (await_total "Failed to save note" res) as [[m H] | [saved H]].
  - rewrite (saveNote_settle_failure _ _ _ H).
    now apply (selection_valid_frame st).
  - destruct (saveNote_settle_success res saved st H) as (_ & Hi & Hs & _).
    now apply (selection_valid_frame st).
Qed.

Lemma deleteNote_settle_valid (cl : State) (i : Z) (res : Response unit) (st : State) :
  succeeds "Failed to delete note" res tt ->
  ids (notes cl) = ids (notes st) -> selectedId cl = selectedId st ->
  selection_valid st -> selection_valid (deleteNote_settle cl i res st).
Proof.
  intros H Hi Hs Hv.
  destruct (deleteNote_settle_success cl i res st H) as (Dn & Ds & _).
  unfold selection_valid. rewrite Dn, Ds. intros s.
  destruct (strict_eq (selectedId cl) i) eqn:E.
  - intros Hf. apply first_id_in in Hf.
    rewrite ids_remove in *. now rewrite <- Hi.
  - intros Hsel. apply in_ids_remove. split; [now apply Hv |].
    rewrite Hs, Hsel in E. simpl in E. now apply Z.eqb_neq.
Qed.

Lemma edit_valid (sid : Z) (v : string) (st : State) :
  selection_valid st ->
  selection_valid (editTitle sid v st) /\ selection_valid (editContent sid v st).
Proof.
  intros Hv. split.
  - destruct (editTitle_untouched sid v st) as (_ & Hi & _ & _ & _ & _ & _ & Hs).
    now apply (selection_valid_frame st).
  - destruct (editContent_untouched sid v st) as (_ & Hi & _ & _ & _ & _ & _ & Hs).
    now apply (selection_valid_frame st).
Qed.

(** Whatever is proved of single events carries over to runs. *)
Lemma run_invariant (P : World -> Event -> Prop) (I : State -> Prop) :
  (forall w e w', step w e = Some w' -> P w e -> I (cells w) -> I (cells w')) ->
  forall es w w', run w es = Some w' -> along P w es -> I (cells w) -> I (cells w').
Proof.
  intros Hstep. induction es as [| e es IH]; simpl; intros w w' Hrun Hal Hi.
  - now inversion Hrun; subst.
  - destruct Hal as [Hp Hal].
    destruct (step w e) as [w1 |] eqn:E; [| discriminate].
    apply (IH w1 w' Hrun Hal). now apply (Hstep w e w1).
Qed.

Lemma step_selection_valid (w : World) (e : Event) (w' : World) :
  step w e = Some w' -> selection_kept w e ->
  selection_valid (cells w) -> selection_valid (cells w').
Proof.
  intros Hstep Hk Hv. destruct e; simpl in Hstep, Hk.
  - inversion Hstep; subst; simpl. now apply (selection_valid_frame (cells w)).
  - destruct (loadingSave (cells w)); inversion Hstep; subst; simpl.
    apply createNote_call_valid.
  - destruct (loadingList (cells w)); [discriminate |].
    destruct (existsb (fun n => id n =? i) (notes (cells w))) eqn:E; inversion Hstep; subst.
    simpl. intros s [= <-]. now apply existsb_ids.
  - destruct (selectedNote (cells w)); inversion Hstep; subst; simpl.
    now apply edit_valid.
  - destruct (selectedNote (cells w)); inversion Hstep; subst; simpl.
    now apply edit_valid.
  - destruct (selectedNote (cells w)); [| discriminate].
    destruct (loadingSave (cells w)); inversion Hstep; subst; simpl.
    now apply (selection_valid_frame (cells w)).
  - destruct (selectedNote (cells w)); [| discriminate].
    destruct (loadingDelete (cells w)); inversion Hstep; subst; simpl.
    now apply (selection_valid_frame (cells w)).
  - destruct (nth_error (inflight w) k) as [[cl | | |] |]; try discriminate.
    inversion Hstep; subst; simpl.
    destruct (await_total "Failed to load notes" res) as [[m H] | [data H]].
    + rewrite (fetchNotes_settle_failure _ _ _ _ H).
      now apply (selection_valid_frame (cells w)).
    + apply (fetchNotes_settle_valid_iff cl res data _ H).
      unfold succeeds in H. now rewrite H in Hk.
  - destruct (nth_error (inflight w) k) as [[| cl tempId | |] |]; try discriminate.
    inversion Hstep; subst; simpl. now apply createNote_settle_valid.
  - destruct (nth_error (inflight w) k) as [[| | |] |]; try discriminate.
    inversion Hstep; subst; simpl. now apply saveNote_settle_valid.
  - destruct (nth_error (inflight w) k) as [[| | | cl i] |]; try discriminate.
    inversion Hstep; subst; simpl.
    destruct (await_total "Failed to delete note" res) as [[m H] | [[] H]].
    + rewrite (deleteNote_settle_failure _ _ _ _ _ H).
      now apply (selection_valid_frame (cells w)).
    + pose proof H as H'. unfold succeeds in H'. rewrite H' in Hk.
      destruct Hk as [Hi Hs]. now apply deleteNote_settle_valid.
Qed.

(** C1, as the code has it.  A non-none selection names a note of the
    collection when the component has mounted, and this is kept by every
    event of a run except, possibly, two kinds of completion: a successful
    refresh, after which it holds exactly when the refresh re-selected (no
    truthy selection was captured at its call and the fetched list is not
    empty) or the current selection is none or names a fetched note; and a
    successful delete that completes on ids or a selection other than those
    captured at its call.  The optimistic insertion of a create, both
    completions of a create, both completions of a save, a failed delete, an
    edit and a click on a listed note keep it always, and so does a delete
    run from call to completion with nothing else in between.  A successful
    refresh does not repair a selection whose note is missing from the
    fetched list. *)
Theorem selection_valid_along_runs :
  selection_valid (cells mounted) /\
  (forall w e w',
      step w e = Some w' -> selection_kept w e ->
      selection_valid (cells w) -> selection_valid (cells w')) /\
  (forall es w w',
      run w es = Some w' -> along selection_kept w es ->
      selection_valid (cells w) -> selection_valid (cells w')) /\
  (forall cl res data st,
      succeeds "Failed to load notes" res data ->
      (selection_valid (fetchNotes_settle cl res st)
       <-> refresh_keeps_selection cl data st)) /\
  (forall st,
      selection_valid st ->
      (forall rnd t1 t2, selection_valid (createNote_call rnd t1 t2 st)) /\
      (forall tempId res, selection_valid (createNote_settle tempId res st)) /\
      (forall res, selection_valid (saveNote_settle res st)) /\
      (forall i res, selection_valid (deleteNote i res st)) /\
      (forall sid v, selection_valid (editTitle sid v st) /\
                     selection_valid (editContent sid v st))).
Proof.
  split; [intros i; discriminate |].
  split; [exact step_selection_valid |].
  split; [exact (run_invariant selection_kept selection_valid step_selection_valid) |].
  split; [exact fetchNotes_settle_valid_iff |].
  intros st Hv. repeat apply conj.
  - intros; apply createNote_call_valid.
  - intros; now apply createNote_settle_valid.
  - intros; now apply saveNote_settle_valid.
  - intros i res. unfold deleteNote.
    destruct (await_total "Failed to delete note" res) as [[m H] | [[] H]].
    + rewrite (deleteNote_settle_failure _ _ _ _ _ H).
      now apply (selection_valid_frame st).
    + apply deleteNote_settle_valid; auto.
  - intros sid v. now apply edit_valid.
Qed.

Lemma selection_valid_along_runs_witness :
  selection_valid
    (deleteNote 2 (Replied 204 tt) (state_of [note 1 "a"; note 2 "b"] (Some 2))).
Proof.
  destruct selection_valid_along_runs as (_ & _ & _ & _ & H).
  destruct (H (state_of [note 1 "a"; note 2 "b"] (Some 2))) as (_ & _ & _ & Hd & _).
  - intros i [= <-]. simpl. auto.
  - apply Hd.
Defined.

(** C1 as stated fails for refresh: note 1 is listed and selected; a second
    refresh fetches a list without it; the collection is replaced and the
    selection still says 1. *)
Lemma refresh_leaves_selection_dangling :
  exists w,
    run mounted
      [ListReply 0 (Replied 200 [note 1 "a"]);
       ClickRefresh;
       ListReply 0 (Replied 200 [note 2 "b"])] = Some w /\
    selectedId (cells w) = Some 1 /\
    ids (notes (cells w)) = [2] /\
    ~ selection_valid (cells w).
Proof.
  eexists. split; [reflexivity |]. split; [reflexivity |]. split; [reflexivity |].
  intros H. apply selection_validb_spec in H. vm_compute in H. discriminate.
Qed.

(** ** The ids of the collection are pairwise distinct *)

Lemma ids_distinct_frame (st st' : State) :
  ids (notes st') = ids (notes st) -> ids_distinct st -> ids_distinct st'.
Proof. unfold ids_distinct. now intros ->. Qed.

Lemma createNote_call_distinct (rnd : N) (t1 t2 : string) (st : State) :
  ids_distinct (createNote_call rnd t1 t2 st)
  <-> ids_distinct st /\ ~ In (tempId_of rnd) (ids (notes st)).
Proof.
  unfold ids_distinct, createNote_call; simpl.
  rewrite NoDup_cons_iff. tauto.
Qed.

Lemma remove_distinct (i : Z) (l : list Note) :
  NoDup (ids l) -> NoDup (ids (filter (fun n => negb (id n =? i)) l)).
Proof. rewrite ids_remove. apply NoDup_filter. Qed.

Lemma createNote_settle_distinct (tempId : Z) (res : Response Note) (st : State) :
  (forall created,
      succeeds "Failed to create note" res created ->
      ~ In (id created) (ids (filter (fun n => negb (id n =? tempId)) (notes st)))) ->
  ids_distinct st -> ids_distinct (createNote_settle tempId res st).
Proof.
  intros Hfresh Hd.
  destruct (await_total "Failed to create note" res) as [[m H] | [created H]].
  - rewrite (createNote_settle_failure _ _ _ _ H).
    now apply (ids_distinct_frame st).
  - destruct (createNote_settle_success tempId res created st H) as (Hn & _).
    unfold ids_distinct. rewrite Hn. simpl. apply NoDup_cons.
    + now apply Hfresh.
    + now apply remove_distinct.
Qed.

Lemma saveNote_settle_ids (res : Response Note) (st : State) :
  ids (notes (saveNote_settle res st)) = ids (notes st).
Proof.
  destruct (await_total "Failed to save note" res) as [[m H] | [saved H]].
  - now rewrite (saveNote_settle_failure _ _ _ H).
  - now destruct (saveNote_settle_success res saved st H) as (_ & Hi & _).
Qed.

Lemma deleteNote_settle_distinct (cl : State) (i : Z) (res : Response unit) (st : State) :
  ids_distinct st -> ids_distinct (deleteNote_settle cl i res st).
Proof.
  intros Hd.
  destruct (await_total "Failed to delete note" res) as [[m H] | [[] H]].
  - rewrite (deleteNote_settle_failure _ _ _ _ _ H).
    now apply (ids_distinct_frame st).
  - destruct (deleteNote_settle_success cl i res st H) as (Hn & _).
    unfold ids_distinct. rewrite Hn. now apply remove_distinct.
Qed.

Lemma fetchNotes_settle_distinct (cl : State) (res : Response (list Note)) (st : State) :
  (forall data, succeeds "Failed to load notes" res data -> NoDup (ids data)) ->
  ids_distinct st -> ids_distinct (fetchNotes_settle cl res st).
Proof.
  intros Hdata Hd.
  destruct (await_total "Failed to load notes" res) as [[m H] | [data H]].
  - rewrite (fetchNotes_settle_failure _ _ _ _ H).
    now apply (ids_distinct_frame st).
  - destruct (fetchNotes_settle_success cl res data st H) as (Hn & _).
    unfold ids_distinct. rewrite Hn. now apply Hdata.
Qed.

Lemma step_ids_distinct (w : World) (e : Event) (w' : World) :
  step w e = Some w' -> collision_free w e ->
  ids_distinct (cells w) -> ids_distinct (cells w').
Proof.
  intros Hstep Hc Hd. destruct e; simpl in Hstep, Hc.
  - inversion Hstep; subst; simpl. now apply (ids_distinct_frame (cells w)).
  - destruct (loadingSave (cells w)); inversion Hstep; subst; simpl.
    apply createNote_call_distinct. now split.
  - destruct (loadingList (cells w)); [discriminate |].
    destruct (existsb (fun n => id n =? i) (notes (cells w))); inversion Hstep; subst.
    now apply (ids_distinct_frame (cells w)).
  - destruct (selectedNote (cells w)); inversion Hstep; subst; simpl.
    apply (ids_distinct_frame (cells w)); [| assumption].
    now destruct (editTitle_untouched (id n) v (cells w)) as (_ & Hi & _).
  - destruct (selectedNote (cells w)); inversion Hstep; subst; simpl.
    apply (ids_distinct_frame (cells w)); [| assumption].
    now destruct (editContent_untouched (id n) v (cells w)) as (_ & Hi & _).
  - destruct (selectedNote (cells w)); [| discriminate].
    destruct (loadingSave (cells w)); inversion Hstep; subst; simpl.
    now apply (ids_distinct_frame (cells w)).
  - destruct (selectedNote (cells w)); [| discriminate].
    destruct (loadingDelete (cells w)); inversion Hstep; subst; simpl.
    now apply (ids_distinct_frame (cells w)).
  - destruct (nth_error (inflight w) k) as [[cl | | |] |]; try discriminate.
    inversion Hstep; subst; simpl.
    apply fetchNotes_settle_distinct; [| assumption].
    intros data H. unfold succeeds in H. now rewrite H in Hc.
  - destruct (nth_error (inflight w) k) as [[| cl tempId | |] |]; try discriminate.
    inversion Hstep; subst; simpl.
    apply createNote_settle_distinct; [| assumption].
    intros created H. unfold succeeds in H. now rewrite H in Hc.
  - destruct (nth_error (inflight w) k) as [[| | |] |]; try discriminate.
    inversion Hstep; subst; simpl.
    apply (ids_distinct_frame (cells w)); [apply saveNote_settle_ids | assumption].
  - destruct (nth_error (inflight w) k) as [[| | | cl i] |]; try discriminate.
    inversion Hstep; subst; simpl. now apply deleteNote_settle_distinct.
Qed.

(** C2, as the code has it.  The pending id drawn by create is minus a
    random integer below 10^9, hence zero or negative, and is put at the head
    of the collection with no check against the ids already there: the ids
    are pairwise distinct after the optimistic insertion exactly when they
    were before and the draw hit none of them.  The ids are pairwise distinct
    when the component has mounted and stay so along every run in which each
    drawn pending id is not in the collection, each fetched list has
    pairwise distinct ids, and each created server note's id is not carried
    by another note that stays; edits, saves, deletes and failed requests
    never break it. *)
Theorem ids_distinct_along_collision_free_runs :
  ids_distinct (cells mounted) /\
  (forall rnd,
      tempId_of rnd <= 0 /\
      ((rnd < 1000000000)%N -> -1000000000 < tempId_of rnd)) /\
  (forall rnd t1 t2 st,
      ids_distinct (createNote_call rnd t1 t2 st)
      <-> ids_distinct st /\ ~ In (tempId_of rnd) (ids (notes st))) /\
  (forall w e w',
      step w e = Some w' -> collision_free w e ->
      ids_distinct (cells w) -> ids_distinct (cells w')) /\
  (forall es w w',
      run w es = Some w' -> along collision_free w es ->
      ids_distinct (cells w) -> ids_distinct (cells w')).
Proof.
  split; [apply NoDup_nil |].
  split; [exact tempId_of_range |].
  split; [exact createNote_call_distinct |].
  split; [exact step_ids_distinct |].
  exact (run_invariant collision_free ids_distinct step_ids_distinct).
Qed.

Lemma ids_distinct_along_collision_free_runs_witness :
  ids_distinct (createNote_call 5 "t1" "t2" (state_of [note 1 "a"] (Some 1))).
Proof.
  destruct ids_distinct_along_collision_free_runs as (_ & _ & H & _).
  apply H. split.
  - apply NoDup_cons; [intros [] | apply NoDup_nil].
  - simpl. intros [E | []]. discriminate E.
Defined.

(** C2 as stated fails.  First run: a create whose request and refetch
    both fail leaves its pending note (id -5) in the collection; a second
    create that draws the same random number puts a second note with id -5
    in front of it.  Second run: a refresh clicked while a create is in
    flight fetches the new server note 7 before the create's reply arrives;
    handling that reply puts note 7 in front of the fetched note 7. *)
Lemma create_breaks_distinct_ids :
  (exists w,
      run mounted
        [ListReply 0 (Replied 200 []);
         ClickNew 5 "t1" "t2";
         CreateReply 0 (Replied 500 (note 0 ""));
         ListReply 0 (Rejected "Failed to fetch");
         ClickNew 5 "t3" "t4"] = Some w /\
      ids (notes (cells w)) = [-5; -5] /\
      ~ ids_distinct (cells w)) /\
  (exists w,
      run mounted
        [ListReply 0 (Replied 200 [note 1 "a"]);
         ClickNew 5 "t1" "t2";
         ClickRefresh;
         ListReply 1 (Replied 200 [note 7 "Untitled"; note 1 "a"]);
         CreateReply 0 (Replied 201 (note 7 "Untitled"))] = Some w /\
      ids (notes (cells w)) = [7; 7; 1] /\
      ~ ids_distinct (cells w)).
Proof.
  split; eexists; (split; [reflexivity |]); (split; [reflexivity |]);
    unfold ids_distinct; intros H; apply NoDup_cons_iff in H;
    apply (proj1 H); now left.
Qed.

(** ** The three scenarios of the specification, run on the machine *)

(** Notes 1 and 2 are listed, 2 is selected, its deletion succeeds. *)
Example scenario_delete_selected :
  exists w,
    run mounted
      [ListReply 0 (Replied 200 [note 1 "a"; note 2 "b"]);
       ClickNote 2;
       ClickDelete;
       DeleteReply 0 (Replied 204 tt)] = Some w /\
    notes (cells w) = [note 1 "a"] /\ selectedId (cells w) = Some 1.
Proof. eexists; repeat split; reflexivity. Qed.

(** The collection is empty, a create is issued and never answered. *)
Example scenario_create_in_flight :
  exists w,
    run mounted [ListReply 0 (Replied 200 []); ClickNew 42 "t1" "t2"] = Some w /\
    notes (cells w) = [optimistic_note 42 "t1" "t2"] /\
    title (optimistic_note 42 "t1" "t2") = "Untitled" /\
    content (optimistic_note 42 "t1" "t2") = "" /\
    selectedId (cells w) = Some (-42) /\
    loadingSave (cells w) = true /\
    step w (ClickNew 43 "t3" "t4") = None.
Proof. eexists; repeat split; reflexivity. Qed.

(** Note 1 is listed, a create succeeds with the server note 7. *)
Example scenario_create_confirmed :
  exists w,
    run mounted
      [ListReply 0 (Replied 200 [note 1 "a"]);
       ClickNew 42 "t1" "t2";
       CreateReply 0 (Replied 201 (note 7 "Untitled"))] = Some w /\
    notes (cells w) = [note 7 "Untitled"; note 1 "a"] /\
    selectedId (cells w) = Some 7 /\
    inflight w = [].
Proof. eexists; repeat split; reflexivity. Qed.

(** A delete whose closure is out of date: the refresh that completes while
    the delete is in flight replaces the collection, and the delete then
    selects the first note of the collection it had captured. *)
Example stale_delete_selects_missing_note :
  exists w,
    run mounted
      [ListReply 0 (Replied 200 [note 1 "a"; note 2 "b"]);
       ClickDelete;
       ClickRefresh;
       ListReply 1 (Replied 200 [note 1 "a"; note 3 "c"]);
       DeleteReply 0 (Replied 204 tt)] = Some w /\
    ids (notes (cells w)) = [3] /\ selectedId (cells w) = Some 2.
Proof. eexists; repeat split; reflexivity. Qed.

(** * Further properties of the component *)

(** ** The note shown in the detail pane *)

Lemma find_selected_none (sel : option Z) (l : list Note) :
  find (fun n => strict_eq sel (id n)) l = None
  <-> (forall i, sel = Some i -> ~ In i (ids l)).
Proof.
  unfold ids. induction l as [| x l IH]; simpl.
  - split; [intros _ i _ [] | reflexivity].
  - destruct (strict_eq sel (id x)) eqn:E.
    + split; [discriminate |]. intros H. exfalso.
      destruct sel as [s |]; simpl in E; [| discriminate].
      apply Z.eqb_eq in E. apply (H s eq_refl). now left.
    + rewrite IH. split.
      * intros H i Hi [Hx | Hin]; [| exact (H i Hi Hin)].
        subst sel. simpl in E. rewrite Hx, Z.eqb_refl in E. discriminate.
      * intros H i Hi Hin. apply (H i Hi). now right.
Qed.

Lemma find_selected_some (sel : option Z) (l : list Note) (n : Note) :
  find (fun x => strict_eq sel (id x)) l = Some n ->
  sel = Some (id n) /\
  exists before after, l = before ++ n :: after /\ ~ In (id n) (ids before).
Proof.
  unfold ids. induction l as [| x l IH]; simpl; intros Hf; [discriminate |].
  destruct (strict_eq sel (id x)) eqn:E.
  - inversion Hf; subst x. destruct sel as [s |]; simpl in E; [| discriminate].
    apply Z.eqb_eq in E. subst s. split; [reflexivity |].
    exists [], l. split; [reflexivity | intros []].
  - destruct (IH Hf) as (Hsel & before & after & Hl & Hb).
    split; [exact Hsel |].
    exists (x :: before), after. split; [simpl; now rewrite Hl |].
    simpl. intros [Hx | Hin]; [| exact (Hb Hin)].
    subst sel. simpl in E. rewrite Hx, Z.eqb_refl in E. discriminate.
Qed.

(** X1. The detail pane (editor, Save and Delete) is rendered exactly when the
    selection names a listed note, and it then shows the first note of the
    collection that carries the selected id. *)
Theorem selectedNote_shown_iff_selection_listed (st : State) :
  (selectedNote st = None
   <-> (forall i, selectedId st = Some i -> ~ In i (ids (notes st)))) /\
  (selectedNote st <> None
   <-> (exists i, selectedId st = Some i /\ In i (ids (notes st)))) /\
  (forall n, selectedNote st = Some n ->
             selectedId st = Some (id n) /\
             exists before after,
               notes st = before ++ n :: after /\ ~ In (id n) (ids before)).
Proof.
  unfold selectedNote.
  pose proof (find_selected_none (selectedId st) (notes st)) as Hnone.
  split; [exact Hnone |]. split.
  - split.
    + intros Hne. destruct (selectedId st) as [s |] eqn:Es.
      * exists s. split; [reflexivity |].
        destruct (in_dec Z.eq_dec s (ids (notes st))) as [Hin | Hout]; [exact Hin |].
        exfalso. apply Hne, Hnone. now intros i [= <-].
      * exfalso. apply Hne, Hnone. discriminate.
    + intros (i & Hi & Hin) Hf. exact (proj1 Hnone Hf i Hi Hin).
  - intros n. apply find_selected_some.
Qed.

(** ** Typing into the inputs *)

Lemma find_edit (sel : option Z) (g : Note -> Note) (l : list Note) (n : Note) :
  (forall x, id (g x) = id x) ->
  find (fun x => strict_eq sel (id x)) l = Some n ->
  find (fun x => strict_eq sel (id x))
       (map (fun x => if id x =? id n then g x else x) l) = Some (g n).
Proof.
  intros Hg. induction l as [| x l IH]; simpl; intros Hf; [discriminate |].
  destruct (strict_eq sel (id x)) eqn:E.
  - inversion Hf; subst x. rewrite Z.eqb_refl, Hg, E. reflexivity.
  - assert (Hsel : strict_eq sel (id n) = true).
    { apply find_some in Hf. tauto. }
    destruct (Z.eqb_spec (id x) (id n)) as [Ex | Ex].
    + rewrite Ex, Hsel in E. discriminate.
    + rewrite E. now apply IH.
Qed.

(** X2. The inputs are controlled by the state: what is typed into the title
    (or the content) of the note in the detail pane is what that pane shows
    next, for the same note, with the other field as it was. *)
Theorem typed_text_is_shown (n : Note) (v : string) (st : State)
    (Hshown : selectedNote st = Some n) :
  selectedNote (editTitle (id n) v st) = Some (with_title v n) /\
  selectedNote (editContent (id n) v st) = Some (with_content v n) /\
  title (with_title v n) = v /\ content (with_title v n) = content n /\
  content (with_content v n) = v /\ title (with_content v n) = title n.
Proof.
  unfold selectedNote in *. repeat split.
  - unfold editTitle; simpl. now apply find_edit.
  - unfold editContent; simpl. now apply find_edit.
Qed.

Lemma typed_text_is_shown_witness :
  selectedNote (editTitle 2 "shopping" (state_of [note 1 "a"; note 2 "b"] (Some 2)))
  = Some (note 2 "shopping").
Proof.
  destruct (typed_text_is_shown (note 2 "b") "shopping"
              (state_of [note 1 "a"; note 2 "b"] (Some 2)) eq_refl) as (H & _).
  exact H.
Defined.

Lemma setNotes_same (f : list Note -> list Note) (st : State) :
  f (notes st) = notes st -> setNotes f st = st.
Proof. destruct st; unfold setNotes; simpl; intros ->; reflexivity. Qed.

Lemma setNotes_ext (f g : list Note -> list Note) (st : State) :
  f (notes st) = g (notes st) -> setNotes f st = setNotes g st.
Proof. unfold setNotes; intros ->; reflexivity. Qed.

Lemma map_edit_absent (sid : Z) (g : Note -> Note) (l : list Note) :
  ~ In sid (ids l) -> map (fun n => if id n =? sid then g n else n) l = l.
Proof.
  unfold ids. induction l as [| x l IH]; simpl; intros H; [reflexivity |].
  destruct (Z.eqb_spec (id x) sid) as [E | E]; [exfalso; apply H; now left |].
  f_equal. apply IH. tauto.
Qed.

(** X3. How edits combine: typing again into the same field replaces what was
    typed before; a title edit and a content edit can be applied in either
    order, whether they aim at the same note or at notes with different
    ids; two title edits, or two content edits, of notes with different ids
    can be applied in either order; an edit aimed at an id that no note
    carries changes nothing. *)
Theorem edits_compose (a b : Z) (v v' : string) (st : State) :
  editTitle a v' (editTitle a v st) = editTitle a v' st /\
  editContent a v' (editContent a v st) = editContent a v' st /\
  editTitle a v (editContent a v' st) = editContent a v' (editTitle a v st) /\
  editTitle a v (editContent b v' st) = editContent b v' (editTitle a v st) /\
  (a <> b -> editTitle a v (editTitle b v' st) = editTitle b v' (editTitle a v st)) /\
  (a <> b -> editContent a v (editContent b v' st) = editContent b v' (editContent a v st)) /\
  (~ In a (ids (notes st)) -> editTitle a v st = st /\ editContent a v st = st).
Proof.
  unfold editTitle, editContent.
  repeat apply conj.
  - unfold setNotes; simpl. f_equal. rewrite map_map. apply map_ext. intros n.
    destruct (id n =? a) eqn:E; simpl; [now rewrite E | now rewrite E].
  - unfold setNotes; simpl. f_equal. rewrite map_map. apply map_ext. intros n.
    destruct (id n =? a) eqn:E; simpl; [now rewrite E | now rewrite E].
  - unfold setNotes; simpl. f_equal. rewrite !map_map. apply map_ext. intros n.
    destruct (id n =? a) eqn:E; simpl; now rewrite E.
  - unfold setNotes; simpl. f_equal. rewrite !map_map. apply map_ext. intros n.
    destruct (id n =? a) eqn:Ea, (id n =? b) eqn:Eb; simpl;
      rewrite ?Ea, ?Eb; reflexivity.
  - intros Hab. unfold setNotes; simpl. f_equal. rewrite !map_map.
    apply map_ext. intros n.
    destruct (Z.eqb_spec (id n) a) as [Ea | Ea], (Z.eqb_spec (id n) b) as [Eb | Eb];
      simpl; try congruence.
    + destruct (Z.eqb_spec (id n) a), (Z.eqb_spec (id n) b); congruence.
    + destruct (Z.eqb_spec (id n) a), (Z.eqb_spec (id n) b); congruence.
    + destruct (Z.eqb_spec (id n) a), (Z.eqb_spec (id n) b); congruence.
  - intros Hab. unfold setNotes; simpl. f_equal. rewrite !map_map.
    apply map_ext. intros n.
    destruct (Z.eqb_spec (id n) a) as [Ea | Ea], (Z.eqb_spec (id n) b) as [Eb | Eb];
      simpl; try congruence.
    + destruct (Z.eqb_spec (id n) a), (Z.eqb_spec (id n) b); congruence.
    + destruct (Z.eqb_spec (id n) a), (Z.eqb_spec (id n) b); congruence.
    + destruct (Z.eqb_spec (id n) a), (Z.eqb_spec (id n) b); congruence.
  - intros Habs. split; apply setNotes_same; now apply map_edit_absent.
Qed.

Lemma edits_compose_witness :
  editTitle 2 "x" (editTitle 1 "y" (state_of [note 1 "a"; note 2 "b"] None))
  = editTitle 1 "y" (editTitle 2 "x" (state_of [note 1 "a"; note 2 "b"] None)) /\
  editTitle 2 "x" (editContent 1 "y" (state_of [note 1 "a"; note 2 "b"] None))
  = editContent 1 "y" (editTitle 2 "x" (state_of [note 1 "a"; note 2 "b"] None)) /\
  editTitle 9 "x" (state_of [note 1 "a"; note 2 "b"] None)
  = state_of [note 1 "a"; note 2 "b"] None.
Proof.
  destruct (edits_compose 2 1 "x" "y" (state_of [note 1 "a"; note 2 "b"] None))
    as (_ & _ & _ & Hm & Hc & _).
  destruct (edits_compose 9 1 "x" "y" (state_of [note 1 "a"; note 2 "b"] None))
    as (_ & _ & _ & _ & _ & _ & Ha).
  split; [| split].
  - apply Hc. discriminate.
  - exact Hm.
  - apply Ha. simpl. intros [E | [E | []]]; discriminate E.
Defined.

(** ** A save that succeeds *)

Lemma find_replace (sel : option Z) (saved : Note) (l : list Note) (n : Note) :
  find (fun x => strict_eq sel (id x)) l = Some n ->
  find (fun x => strict_eq sel (id x))
       (map (fun x => if id x =? id saved then saved else x) l)
  = Some (if id n =? id saved then saved else n).
Proof.
  induction l as [| x l IH]; simpl; intros Hf; [discriminate |].
  destruct (strict_eq sel (id x)) eqn:E.
  - inversion Hf; subst x.
    destruct (Z.eqb_spec (id n) (id saved)) as [Es | Es].
    + assert (E' : strict_eq sel (id saved) = true) by (rewrite <- Es; exact E).
      rewrite E'. reflexivity.
    + rewrite E. reflexivity.
  - destruct (Z.eqb_spec (id x) (id saved)) as [Es | Es].
    + assert (E' : strict_eq sel (id saved) = false) by (rewrite <- Es; exact E).
      rewrite E'. now apply IH.
    + rewrite E. now apply IH.
Qed.

(** X4. A successful save replaces, in place, every note that carries the id of
    the note the server sent back, and nothing else: the collection keeps
    its length and its ids, every other note stays where it was, and a
    reply whose id no note carries changes no note.  The detail pane then
    shows the server's note if it showed a note with that id, and the same
    note as before otherwise. *)
Theorem saveNote_success_replaces_in_place (res : Response Note) (saved : Note)
    (st : State) (Hok : succeeds "Failed to save note" res saved) :
  let st' := saveNote_settle res st in
  List.length (notes st') = List.length (notes st) /\
  ids (notes st') = ids (notes st) /\
  (forall k n, nth_error (notes st) k = Some n ->
               nth_error (notes st') k
               = Some (if id n =? id saved then saved else n)) /\
  (~ In (id saved) (ids (notes st)) -> notes st' = notes st) /\
  selectedId st' = selectedId st /\
  (forall n, selectedNote st = Some n ->
             selectedNote st' = Some (if id n =? id saved then saved else n)).
Proof.
  cbv zeta.
  destruct (saveNote_settle_success res saved st Hok) as (Hn & Hi & Hs & _).
  repeat apply conj.
  - rewrite Hn. apply length_map.
  - exact Hi.
  - intros k n Hk. rewrite Hn, nth_error_map, Hk. reflexivity.
  - intros Habs. rewrite Hn. now apply map_edit_absent.
  - exact Hs.
  - intros n Hsel. unfold selectedNote in *. rewrite Hn, Hs.
    now apply find_replace.
Qed.

Lemma saveNote_success_replaces_in_place_witness :
  nth_error (notes (saveNote_settle (Replied 200 (note 2 "server"))
                      (state_of [note 1 "a"; note 2 "typed"] (Some 2)))) 1
  = Some (note 2 "server").
Proof.
  destruct (saveNote_success_replaces_in_place (Replied 200 (note 2 "server"))
              (note 2 "server") (state_of [note 1 "a"; note 2 "typed"] (Some 2))
              eq_refl) as (_ & _ & H & _).
  exact (H 1%nat (note 2 "typed") eq_refl).
Defined.

(** ** The server's version wins over unsaved edits *)

Lemma replace_after_edit (saved : Note) (g : Note -> Note) (l : list Note) :
  (forall x, id (g x) = id x) ->
  map (fun n => if id n =? id saved then saved else n)
      (map (fun n => if id n =? id saved then g n else n) l)
  = map (fun n => if id n =? id saved then saved else n) l.
Proof.
  intros Hg. rewrite map_map. apply map_ext. intros n.
  destruct (id n =? id saved) eqn:E; [now rewrite Hg, E | now rewrite E].
Qed.

Lemma remove_after_edit (i : Z) (g : Note -> Note) (l : list Note) :
  (forall x, id (g x) = id x) ->
  filter (fun n => negb (id n =? i))
         (map (fun n => if id n =? i then g n else n) l)
  = filter (fun n => negb (id n =? i)) l.
Proof.
  intros Hg. induction l as [| x l IH]; simpl; [reflexivity |].
  destruct (id x =? i) eqn:E; simpl.
  - rewrite Hg, E. simpl. exact IH.
  - rewrite E. simpl. now rewrite IH.
Qed.

(** X5. Text typed while a request is in flight does not survive its success:
    a successful save leaves the state it would have left without the
    edits of the saved note; a successful create leaves the state it would
    have left without the edits of the pending note; a successful refresh
    leaves the state it would have left without any edit. *)
Theorem success_discards_unsaved_edits (v : string) (st : State) :
  (forall res saved,
      succeeds "Failed to save note" res saved ->
      saveNote_settle res (editTitle (id saved) v st) = saveNote_settle res st /\
      saveNote_settle res (editContent (id saved) v st) = saveNote_settle res st) /\
  (forall tempId res created,
      succeeds "Failed to create note" res created ->
      createNote_settle tempId res (editTitle tempId v st)
      = createNote_settle tempId res st /\
      createNote_settle tempId res (editContent tempId v st)
      = createNote_settle tempId res st) /\
  (forall cl res data sid,
      succeeds "Failed to load notes" res data ->
      fetchNotes_settle cl res (editTitle sid v st) = fetchNotes_settle cl res st /\
      fetchNotes_settle cl res (editContent sid v st) = fetchNotes_settle cl res st).
Proof.
  unfold succeeds. repeat apply conj.
  - intros res saved H. unfold saveNote_settle. rewrite H.
    split; (unfold editTitle, editContent, setNotes, setError, setLoadingSave; simpl;
            f_equal; now apply replace_after_edit).
  - intros tempId res created H. unfold createNote_settle. rewrite H.
    split; (unfold editTitle, editContent, setNotes, setError, setLoadingSave,
              setSelectedId; simpl;
            do 2 f_equal; now apply remove_after_edit).
  - intros cl res data sid H. unfold fetchNotes_settle. rewrite H.
    split; (destruct ((0 <? List.length data)%nat && negb (truthy (selectedId cl)));
            reflexivity).
Qed.

Lemma success_discards_unsaved_edits_witness :
  saveNote_settle (Replied 200 (note 2 "server"))
    (editTitle 2 "typed meanwhile" (state_of [note 1 "a"; note 2 "b"] (Some 2)))
  = saveNote_settle (Replied 200 (note 2 "server"))
      (state_of [note 1 "a"; note 2 "b"] (Some 2)).
Proof.
  destruct (success_discards_unsaved_edits "typed meanwhile"
              (state_of [note 1 "a"; note 2 "b"] (Some 2))) as (H & _).
  destruct (H (Replied 200 (note 2 "server")) (note 2 "server") eq_refl) as [Ht _].
  exact Ht.
Defined.

(** ** A refresh that fails *)

(** X6. A failed refresh keeps the view as it is: whatever the state when the
    reply arrives, the collection, the selection and the other busy flags
    are untouched, the error is the failure's message and [loadingList] is
    released; started with [loadingList] clear, the whole refresh changes
    the error cell only. *)
Theorem fetchNotes_failure_keeps_view (res : Response (list Note)) (message : string)
    (Hfail : fails "Failed to load notes" res message) :
  (forall cl st,
      fetchNotes_settle cl res st = setLoadingList false (setError (Some message) st)) /\
  (forall st, notes (fetchNotes res st) = notes st /\
              selectedId (fetchNotes res st) = selectedId st /\
              selectedNote (fetchNotes res st) = selectedNote st /\
              error (fetchNotes res st) = Some message) /\
  (forall st, loadingList st = false ->
              fetchNotes res st = setError (Some message) st).
Proof.
  assert (F : forall cl st, fetchNotes_settle cl res st
                            = setLoadingList false (setError (Some message) st))
    by (intros; now apply fetchNotes_settle_failure).
  repeat apply conj.
  - exact F.
  - intros st. unfold fetchNotes. rewrite F. auto.
  - intros st Hb. unfold fetchNotes. rewrite F.
    destruct st; simpl in *; subst; reflexivity.
Qed.

Lemma fetchNotes_failure_keeps_view_witness :
  fetchNotes (Replied 503 []) (state_of [note 1 "a"] (Some 1))
  = setError (Some "Failed to load notes (503)") (state_of [note 1 "a"] (Some 1)).
Proof.
  destruct (fetchNotes_failure_keeps_view (Replied 503 [])
              "Failed to load notes (503)" eq_refl) as (_ & _ & H).
  apply H. reflexivity.
Defined.

(** ** A delete that succeeds *)





(** ** Right after clicking New *)

(** X8. The optimistic insertion opens the pending note at once: whatever the
    state (even one that already holds a note with the drawn id), the
    detail pane shows the pending note, titled "Untitled" with an empty
    content, in front of the notes that were there; the error is not
    touched.  Until the reply is handled the pending note can be typed
    into, and neither New nor Save is offered. *)
Theorem createNote_opens_pending_note (rnd : N) (t1 t2 : string) (st : State) :
  let pending := optimistic_note rnd t1 t2 in
  let st' := createNote_call rnd t1 t2 st in
  selectedNote st' = Some pending /\
  title pending = "Untitled" /\ content pending = "" /\
  notes st' = pending :: notes st /\
  error st' = error st /\
  (forall fl rnd' t3 t4, step (mkWorld st' fl) (ClickNew rnd' t3 t4) = None) /\
  (forall fl, step (mkWorld st' fl) ClickSave = None) /\
  (forall fl v, step (mkWorld st' fl) (TypeTitle v)
                = Some (mkWorld (editTitle (id pending) v st') fl)).
Proof.
  cbv zeta.
  assert (Hsel : selectedNote (createNote_call rnd t1 t2 st)
                 = Some (optimistic_note rnd t1 t2)).
  { unfold selectedNote, createNote_call. simpl. now rewrite Z.eqb_refl. }
  repeat apply conj; try reflexivity.
  - exact Hsel.
  - intros fl. cbn [step cells]. now rewrite Hsel.
  - intros fl v. cbn [step cells inflight]. now rewrite Hsel.
Qed.

(** ** After a failed create has been rolled back *)

(** X9. When a create fails and the refetch it starts succeeds, the refetch
    decides the selection with the [selectedId] of the render the create
    was clicked in: if that was none (or 0) and the fetched list is not
    empty, the first fetched note is selected and shown; otherwise the
    selection stays on the pending id, and unless the fetched list has a
    note with that id the detail pane closes, although the note selected
    before the click may still be listed. *)
Theorem createNote_rollback_selection (rnd : N) (t1 t2 : string)
    (res : Response Note) (rollback : Response (list Note))
    (mc : string) (data : list Note) (st : State)
    (Hc : fails "Failed to create note" res mc)
    (Hr : succeeds "Failed to load notes" rollback data) :
  let fin := createNote rnd t1 t2 res rollback st in
  selectedId fin =
    (if (0 <? List.length data)%nat && negb (truthy (selectedId st))
     then first_id data else Some (tempId_of rnd)) /\
  (truthy (selectedId st) = false -> data <> [] ->
   selectedNote fin = hd_error data) /\
  (truthy (selectedId st) = true -> ~ In (tempId_of rnd) (ids data) ->
   selectedNote fin = None) /\
  (data = [] -> selectedId fin = Some (tempId_of rnd) /\ selectedNote fin = None).
Proof.
  cbv zeta.
  destruct (createNote_failure_mid rnd t1 t2 res mc st Hc) as (_ & Ms & _).
  rewrite (createNote_unfold_failure _ _ _ _ rollback _ _ Hc).
  destruct (fetchNotes_settle_success st rollback data
              (createNote_settled rnd t1 t2 res st) Hr) as (Fn & Fs & _).
  rewrite Ms in Fs.
  unfold selectedNote. rewrite Fn, Fs.
  repeat apply conj.
  - reflexivity.
  - intros Ht Hne. rewrite Ht. destruct data as [| d rest]; [contradiction |].
    simpl. now rewrite Z.eqb_refl.
  - intros Ht Habs. rewrite Ht, andb_false_r.
    apply find_selected_none. now intros i [= <-].
  - intros ->. simpl. auto.
Qed.

Lemma createNote_rollback_selection_witness :
  selectedNote (createNote 5 "t1" "t2" (Replied 500 (note 0 ""))
                  (Replied 200 [note 1 "a"; note 2 "b"])
                  (state_of [note 1 "a"; note 2 "b"] (Some 2)))
  = None.
Proof.
  destruct (createNote_rollback_selection 5 "t1" "t2" (Replied 500 (note 0 ""))
              (Replied 200 [note 1 "a"; note 2 "b"])
              "Failed to create note (500)" [note 1 "a"; note 2 "b"]
              (state_of [note 1 "a"; note 2 "b"] (Some 2)) eq_refl eq_refl)
    as (_ & _ & H & _).
  apply H; [reflexivity |].
  simpl. intros [E | [E | []]]; discriminate E.
Defined.

(** ** The side list *)

Lemma filter_absent (i : Z) (l : list Note) :
  ~ In i (ids l) -> filter (fun n => strict_eq (Some i) (id n)) l = [].
Proof.
  unfold ids. induction l as [| x l IH]; simpl; intros H; [reflexivity |].
  destruct (Z.eqb_spec i (id x)) as [E | E]; [exfalso; apply H; now left |].
  apply IH. tauto.
Qed.

Lemma unique_selected (i : Z) (l : list Note) :
  NoDup (ids l) -> In i (ids l) ->
  exists n,
    find (fun x => strict_eq (Some i) (id x)) l = Some n /\
    filter (fun x => strict_eq (Some i) (id x)) l = [n].
Proof.
  unfold ids. induction l as [| x l IH]; simpl; intros Hd Hin; [contradiction |].
  apply NoDup_cons_iff in Hd. destruct Hd as [Hx Hd].
  destruct (Z.eqb_spec i (id x)) as [E | E].
  - exists x. split; [reflexivity |]. f_equal.
    apply filter_absent. now rewrite E.
  - destruct Hin as [Hin | Hin]; [congruence |]. now apply IH.
Qed.

Lemma active_entries (st : State) :
  filter active (map (listItem st) (notes st))
  = map (listItem st) (filter (fun n => strict_eq (selectedId st) (id n)) (notes st)).
Proof. apply filter_map_swap. Qed.

(** X10. The side list is replaced by a text while a refetch is loading or when
    there is no note; otherwise it has one entry per note, in order, keyed
    by the note's id, and draws as active exactly the entries whose note
    carries the selected id.  When the ids are pairwise distinct and the
    selection names a listed note, exactly one entry is active, and it is
    the entry of the note shown in the detail pane. *)
Theorem listPane_marks_selected (st : State) :
  (listPane st = LoadingNotes <-> loadingList st = true) /\
  (listPane st = NoNotesYet <-> loadingList st = false /\ notes st = []) /\
  (loadingList st = false -> notes st <> [] ->
   listPane st = Listed (map (listItem st) (notes st))) /\
  map key (map (listItem st) (notes st)) = ids (notes st) /\
  (forall n, active (listItem st n) = true <-> selectedId st = Some (id n)) /\
  (selectedId st = None -> filter active (map (listItem st) (notes st)) = []) /\
  (forall i, selectedId st = Some i -> ~ In i (ids (notes st)) ->
             filter active (map (listItem st) (notes st)) = []) /\
  (forall i, ids_distinct st -> selectedId st = Some i -> In i (ids (notes st)) ->
             exists n, selectedNote st = Some n /\
                       filter active (map (listItem st) (notes st)) = [listItem st n]).
Proof.
  unfold listPane.
  split; [| split; [| split; [| split; [| split; [| split; [| split]]]]]].
  - destruct (loadingList st); [tauto |].
    destruct (List.length (notes st) =? 0)%nat; split; intros H; discriminate H.
  - destruct (loadingList st).
    + split; [intros H; discriminate H | intros [H _]; discriminate H].
    + destruct (notes st); simpl; split; auto.
      * intros H; discriminate H.
      * intros [_ H]; discriminate H.
  - intros -> Hne. destruct (notes st); [contradiction | reflexivity].
  - rewrite map_map. reflexivity.
  - intros n. unfold listItem; simpl. destruct (selectedId st) as [s |]; simpl.
    + rewrite Z.eqb_eq. split; congruence.
    + split; discriminate.
  - intros Hs. rewrite active_entries, Hs. simpl.
    induction (notes st); simpl; auto.
  - intros i Hs Habs. rewrite active_entries, Hs, filter_absent; auto.
  - intros i Hd Hs Hin. unfold selectedNote. rewrite active_entries, Hs.
    destruct (unique_selected i (notes st) Hd Hin) as (n & Hf & Hfl).
    exists n. rewrite Hf, Hfl. auto.
Qed.

Lemma listPane_marks_selected_witness :
  filter active (map (listItem (state_of [note 1 "a"; note 2 ""] (Some 2)))
                     [note 1 "a"; note 2 ""])
  = [{| key := 2; active := true; text := "Untitled" |}].
Proof.
  destruct (listPane_marks_selected (state_of [note 1 "a"; note 2 ""] (Some 2)))
    as (_ & _ & _ & _ & _ & _ & _ & H).
  destruct (H 2) as (n & Hn & Hf).
  - unfold ids_distinct. simpl.
    repeat (apply NoDup_cons; [simpl; intuition discriminate |]). apply NoDup_nil.
  - reflexivity.
  - simpl. auto.
  - inversion Hn; subst n. exact Hf.
Defined.

(** ** The error banner *)

Lemma status_message_not_empty (what : string) (status : N) :
  status_message what status <> "".
Proof. unfold status_message. destruct what; simpl; discriminate. Qed.

Lemma banner_of_error (st : State) (message : string) :
  error st = Some message ->
  banner st = if String.eqb message "" then None else Some message.
Proof. unfold banner. now intros ->. Qed.

Lemma banner_status (st : State) (what : string) (status : N) :
  error st = Some (status_message what status) ->
  banner st = Some (status_message what status).
Proof.
  intros H. rewrite (banner_of_error _ _ H).
  destruct (String.eqb_spec (status_message what status) ""); [| reflexivity].
  now destruct (status_message_not_empty what status).
Qed.

(** X11. The banner shows the error cell unless it is none or the empty string.
    A reply with a status outside 200-299 to any of the four requests always
    raises a banner that names the operation and the status; a request
    that is rejected with an [Error] whose message is empty sets the error
    cell and raises no banner. *)
Theorem banner_after_failure :
  (forall st, banner st = None <-> error st = None \/ error st = Some "") /\
  (forall status,
      ok status = false ->
      (forall cl body st,
          banner (fetchNotes_settle cl (Replied status body) st)
          = Some (status_message "Failed to load notes" status)) /\
      (forall tempId body st,
          banner (createNote_settle tempId (Replied status body) st)
          = Some (status_message "Failed to create note" status)) /\
      (forall body st,
          banner (saveNote_settle (Replied status body) st)
          = Some (status_message "Failed to save note" status)) /\
      (forall cl i body st,
          banner (deleteNote_settle cl i (Replied status body) st)
          = Some (status_message "Failed to delete note" status))) /\
  (forall st,
      (forall cl, error (fetchNotes_settle cl (Rejected "") st) = Some "" /\
                  banner (fetchNotes_settle cl (Rejected "") st) = None) /\
      (forall tempId, error (createNote_settle tempId (Rejected "") st) = Some "" /\
                      banner (createNote_settle tempId (Rejected "") st) = None) /\
      (error (saveNote_settle (Rejected "") st) = Some "" /\
       banner (saveNote_settle (Rejected "") st) = None) /\
      (forall cl i, error (deleteNote_settle cl i (Rejected "") st) = Some "" /\
                    banner (deleteNote_settle cl i (Rejected "") st) = None)).
Proof.
  split; [| split].
  - intros st. unfold banner. destruct (error st) as [m |].
    + destruct (String.eqb_spec m "") as [E | E].
      * subst m. split; auto.
      * split; [discriminate |]. intros [H | H]; [discriminate | congruence].
    + split; auto.
  - intros status Hok. repeat apply conj.
    + intros cl body st. apply banner_status.
      now rewrite (fetchNotes_settle_failure cl _ _ st (await_not_ok _ status body Hok)).
    + intros tempId body st. apply banner_status.
      now rewrite (createNote_settle_failure tempId _ _ st (await_not_ok _ status body Hok)).
    + intros body st. apply banner_status.
      now rewrite (saveNote_settle_failure _ _ st (await_not_ok _ status body Hok)).
    + intros cl i body st. apply banner_status.
      now rewrite (deleteNote_settle_failure cl i _ _ st (await_not_ok _ status body Hok)).
  - intros st. repeat apply conj; intros; split; reflexivity.
Qed.

Lemma banner_after_failure_witness :
  banner (deleteNote_settle initial 1 (Replied 404 tt) (state_of [note 1 "a"] (Some 1)))
  = Some "Failed to delete note (404)".
Proof.
  destruct banner_after_failure as (_ & H & _).
  destruct (H 404%N eq_refl) as (_ & _ & _ & Hd).
  exact (Hd initial 1 tt (state_of [note 1 "a"] (Some 1))).
Defined.

(** ** Starting up *)

(** X12. The component starts by fetching the notes and shows the loading text
    meanwhile.  When the reply is a list, the list is shown, its first note
    is selected and opened (none when the list is empty) and no banner is
    raised; when the request fails the collection stays empty, nothing is
    selected and the error is the failure's message. *)
Theorem first_load (res : Response (list Note)) :
  listPane (cells mounted) = LoadingNotes /\
  step mounted (ListReply 0 res) = Some (mkWorld (fetchNotes res initial) []) /\
  (forall data,
      succeeds "Failed to load notes" res data ->
      notes (fetchNotes res initial) = data /\
      selectedId (fetchNotes res initial) = first_id data /\
      selectedNote (fetchNotes res initial) = hd_error data /\
      banner (fetchNotes res initial) = None /\
      listPane (fetchNotes res initial)
      = match data with
        | [] => NoNotesYet
        | _ :: _ => Listed (map (listItem (fetchNotes res initial)) data)
        end) /\
  (forall message,
      fails "Failed to load notes" res message ->
      fetchNotes res initial = setError (Some message) initial /\
      listPane (fetchNotes res initial) = NoNotesYet /\
      selectedNote (fetchNotes res initial) = None).
Proof.
  split; [reflexivity |]. split; [reflexivity |]. split.
  - intros data H. unfold fetchNotes.
    destruct (fetchNotes_settle_success initial res data (fetchNotes_call initial) H)
      as (Hn & Hs & He & Hl & _).
    assert (Hs' : selectedId (fetchNotes_settle initial res (fetchNotes_call initial))
                  = first_id data).
    { rewrite Hs. simpl. rewrite andb_true_r.
      unfold first_id. destruct (0 <? List.length data)%nat; reflexivity. }
    repeat apply conj.
    + exact Hn.
    + exact Hs'.
    + unfold selectedNote. rewrite Hn, Hs', first_id_head.
      destruct data as [| d rest]; [reflexivity |].
      simpl. now rewrite Z.eqb_refl.
    + unfold banner. now rewrite He.
    + unfold listPane. rewrite Hl, Hn. destruct data; reflexivity.
  - intros m H. unfold fetchNotes.
    rewrite (fetchNotes_settle_failure _ _ _ _ H). auto.
Qed.

Lemma first_load_witness :
  selectedNote (fetchNotes (Replied 200 [note 4 "d"; note 3 "c"]) initial)
  = Some (note 4 "d").
Proof.
  destruct (first_load (Replied 200 [note 4 "d"; note 3 "c"])) as (_ & _ & H & _).
  destruct (H [note 4 "d"; note 3 "c"] eq_refl) as (_ & _ & Hsel & _).
  exact Hsel.
Defined.

(** ** Busy flags and requests in flight *)

Lemma remove_nth_other {A : Type} (f : A -> bool) (k : nat) (l : list A) (x : A) :
  nth_error l k = Some x -> f x = false ->
  filter f (remove_nth k l) = filter f l.
Proof.
  unfold remove_nth. revert l. induction k as [| k IH]; intros [| y l] Hk Hf;
    simpl in *; try discriminate.
  - inversion Hk; subst y. now rewrite Hf.
  - rewrite (IH l Hk Hf). reflexivity.
Qed.

Lemma remove_nth_hit {A : Type} (f : A -> bool) (k : nat) (l : list A) (x : A) :
  nth_error l k = Some x -> f x = true ->
  List.length (filter f l) = S (List.length (filter f (remove_nth k l))).
Proof.
  unfold remove_nth. revert l. induction k as [| k IH]; intros [| y l] Hk Hf;
    simpl in *; try discriminate.
  - inversion Hk; subst y. now rewrite Hf.
  - destruct (f y); simpl; now rewrite (IH l Hk Hf).
Qed.

Lemma count_snoc {A : Type} (f : A -> bool) (l : list A) (x : A) :
  List.length (filter f (l ++ [x]))
  = (List.length (filter f l) + (if f x then 1 else 0))%nat.
Proof.
  rewrite filter_app, length_app. simpl. now destruct (f x).
Qed.

(** The [finally] blocks: whatever the reply, the flag of the request is
    released and the flags of the other kinds are left alone, except that a
    failed create sets [loadingList] for the refetch it starts. *)
Lemma fetchNotes_settle_flags (cl : State) (res : Response (list Note)) (st : State) :
  loadingList (fetchNotes_settle cl res st) = false /\
  loadingSave (fetchNotes_settle cl res st) = loadingSave st /\
  loadingDelete (fetchNotes_settle cl res st) = loadingDelete st.
Proof.
  unfold fetchNotes_settle. destruct (await "Failed to load notes" res); simpl; auto.
  destruct ((0 <? List.length l)%nat && negb (truthy (selectedId cl))); simpl; auto.
Qed.

Lemma createNote_settle_flags (tempId : Z) (res : Response Note) (st : State) :
  loadingSave (createNote_settle tempId res st) = false /\
  loadingDelete (createNote_settle tempId res st) = loadingDelete st /\
  loadingList (createNote_settle tempId res st)
  = match await "Failed to create note" res with
    | inl _ => true
    | inr _ => loadingList st
    end.
Proof.
  unfold createNote_settle. destruct (await "Failed to create note" res); simpl; auto.
Qed.

Lemma saveNote_settle_flags (res : Response Note) (st : State) :
  loadingSave (saveNote_settle res st) = false /\
  loadingList (saveNote_settle res st) = loadingList st /\
  loadingDelete (saveNote_settle res st) = loadingDelete st.
Proof.
  unfold saveNote_settle. destruct (await "Failed to save note" res); simpl; auto.
Qed.

Lemma deleteNote_settle_flags (cl : State) (i : Z) (res : Response unit) (st : State) :
  loadingDelete (deleteNote_settle cl i res st) = false /\
  loadingList (deleteNote_settle cl i res st) = loadingList st /\
  loadingSave (deleteNote_settle cl i res st) = loadingSave st.
Proof.
  unfold deleteNote_settle. destruct (await "Failed to delete note" res); simpl; auto.
  destruct (strict_eq (selectedId cl) i); simpl; auto.
Qed.

Lemma run_world_invariant (I : World -> Prop) :
  (forall w e w', step w e = Some w' -> I w -> I w') ->
  forall es w w', run w es = Some w' -> I w -> I w'.
Proof.
  intros Hstep. induction es as [| e es IH]; simpl; intros w w' Hrun Hi.
  - now inversion Hrun; subst.
  - destruct (step w e) as [w1 |] eqn:E; [| discriminate].
    apply (IH w1 w' Hrun). now apply (Hstep w e w1).
Qed.

Lemma flag_count_hit (b : bool) (n m : nat) :
  n = (if b then 1 else 0)%nat -> n = S m -> b = true /\ m = 0%nat.
Proof. destruct b; intros -> H; [now inversion H | discriminate]. Qed.

Lemma step_flags_track (w : World) (e : Event) (w' : World) :
  step w e = Some w' -> flags_track_requests w -> flags_track_requests w'.
Proof.
  unfold flags_track_requests, in_flight.
  intros Hstep (Hs & Hd & Hl). destruct e; simpl in Hstep.
  - inversion Hstep; subst; simpl. rewrite !count_snoc; simpl.
    rewrite !Nat.add_0_r. repeat split; auto. intros _. lia.
  - destruct (loadingSave (cells w)) eqn:Es; inversion Hstep; subst; simpl.
    rewrite !count_snoc; simpl. rewrite Hs, !Nat.add_0_r.
    repeat split; auto.
  - destruct (loadingList (cells w)) eqn:El; [discriminate |].
    destruct (existsb (fun n => id n =? i) (notes (cells w))); inversion Hstep; subst.
    simpl. repeat split; auto. congruence.
  - destruct (selectedNote (cells w)); inversion Hstep; subst; simpl.
    repeat split; auto.
  - destruct (selectedNote (cells w)); inversion Hstep; subst; simpl.
    repeat split; auto.
  - destruct (selectedNote (cells w)); [| discriminate].
    destruct (loadingSave (cells w)) eqn:Es; inversion Hstep; subst; simpl.
    rewrite !count_snoc; simpl. rewrite Hs, !Nat.add_0_r.
    repeat split; auto.
  - destruct (selectedNote (cells w)); [| discriminate].
    destruct (loadingDelete (cells w)) eqn:Ed; inversion Hstep; subst; simpl.
    rewrite !count_snoc; simpl. rewrite Hd, !Nat.add_0_r.
    repeat split; auto.
  - destruct (nth_error (inflight w) k) as [[cl | | |] |] eqn:Ek; try discriminate.
    inversion Hstep; subst; cbn [cells inflight].
    destruct (fetchNotes_settle_flags cl res (cells w)) as (Fl & Fs & Fd).
    rewrite Fl, Fs, Fd.
    rewrite !(remove_nth_other _ k _ _ Ek) by reflexivity.
    repeat split; auto. discriminate.
  - destruct (nth_error (inflight w) k) as [[| cl tempId | |] |] eqn:Ek; try discriminate.
    inversion Hstep; subst; cbn [cells inflight].
    destruct (createNote_settle_flags tempId res (cells w)) as (Fs & Fd & Fl).
    rewrite Fs, Fd, Fl.
    destruct (flag_count_hit _ _ _ Hs (remove_nth_hit guarded_by_loadingSave k _ _ Ek eq_refl))
      as [Hb Hz].
    pose proof (remove_nth_other guarded_by_loadingDelete k _ _ Ek eq_refl) as Rd.
    pose proof (remove_nth_other guarded_by_loadingList k _ _ Ek eq_refl) as Rl.
    destruct (await "Failed to create note" res).
    + rewrite !count_snoc; simpl. rewrite Hz, Rd, !Nat.add_0_r.
      repeat split; auto. intros _. lia.
    + rewrite Hz, Rd, Rl. repeat split; auto.
  - destruct (nth_error (inflight w) k) as [[| | |] |] eqn:Ek; try discriminate.
    inversion Hstep; subst; cbn [cells inflight].
    destruct (saveNote_settle_flags res (cells w)) as (Fs & Fl & Fd).
    rewrite Fs, Fl, Fd.
    destruct (flag_count_hit _ _ _ Hs (remove_nth_hit guarded_by_loadingSave k _ _ Ek eq_refl))
      as [Hb Hz].
    rewrite Hz.
    rewrite !(remove_nth_other guarded_by_loadingDelete k _ _ Ek) by reflexivity.
    rewrite !(remove_nth_other guarded_by_loadingList k _ _ Ek) by reflexivity.
    repeat split; auto.
  - destruct (nth_error (inflight w) k) as [[| | | cl i] |] eqn:Ek; try discriminate.
    inversion Hstep; subst; cbn [cells inflight].
    destruct (deleteNote_settle_flags cl i res (cells w)) as (Fd & Fl & Fs).
    rewrite Fd, Fl, Fs.
    destruct (flag_count_hit _ _ _ Hd (remove_nth_hit guarded_by_loadingDelete k _ _ Ek eq_refl))
      as [Hb Hz].
    rewrite Hz.
    rewrite !(remove_nth_other guarded_by_loadingSave k _ _ Ek) by reflexivity.
    rewrite !(remove_nth_other guarded_by_loadingList k _ _ Ek) by reflexivity.
    repeat split; auto.
Qed.

(** X13. Along every run of the mounted component the busy flags tell what is
    in flight: [loadingSave] is set exactly while a create or a save is in
    flight and there is never more than one of them, likewise
    [loadingDelete] for deletes, and [loadingList] is set only while some
    refetch is in flight.  So once every request has been answered no busy
    flag is left set, whatever the replies were. *)
Theorem busy_flags_track_requests (es : list Event) (w : World)
    (Hrun : run mounted es = Some w) :
  flags_track_requests w /\
  (in_flight guarded_by_loadingSave w <= 1)%nat /\
  (in_flight guarded_by_loadingDelete w <= 1)%nat /\
  (inflight w = [] ->
   loadingList (cells w) = false /\
   loadingSave (cells w) = false /\
   loadingDelete (cells w) = false).
Proof.
  assert (Hinv : flags_track_requests w).
  { apply (run_world_invariant flags_track_requests step_flags_track es mounted w Hrun).
    unfold flags_track_requests, in_flight. simpl. repeat split; auto. }
  split; [exact Hinv |].
  destruct Hinv as (Hs & Hd & Hl). unfold in_flight in *.
  repeat apply conj.
  - rewrite Hs. destruct (loadingSave (cells w)); lia.
  - rewrite Hd. destruct (loadingDelete (cells w)); lia.
  - intros Hnil. rewrite Hnil in Hs, Hd, Hl. simpl in Hs, Hd, Hl.
    repeat apply conj.
    + destruct (loadingList (cells w)); [| reflexivity].
      specialize (Hl eq_refl). lia.
    + destruct (loadingSave (cells w)); [discriminate | reflexivity].
    + destruct (loadingDelete (cells w)); [discriminate | reflexivity].
Qed.

Lemma busy_flags_track_requests_witness :
  exists w,
    run mounted
      [ListReply 0 (Replied 200 [note 1 "a"]);
       ClickNew 5 "t1" "t2";
       ClickDelete;
       CreateReply 0 (Rejected "Failed to fetch");
       DeleteReply 0 (Replied 404 tt);
       ListReply 0 (Replied 200 [note 1 "a"])] = Some w /\
    inflight w = [] /\
    loadingList (cells w) = false /\
    loadingSave (cells w) = false /\
    loadingDelete (cells w) = false.
Proof.
  eexists. split; [reflexivity |]. split; [reflexivity |].
  exact (proj2 (proj2 (proj2
           (busy_flags_track_requests
              [ListReply 0 (Replied 200 [note 1 "a"]);
               ClickNew 5 "t1" "t2";
               ClickDelete;
               CreateReply 0 (Rejected "Failed to fetch");
               DeleteReply 0 (Replied 404 tt);
               ListReply 0 (Replied 200 [note 1 "a"])] _ eq_refl))) eq_refl).
Defined.
